(** * barrier.c (pthreads-win32): a shallow embedding and its properties

    The translation unit [src/barrier.c] is embedded as follows.

    - Storage is a [memory]: the caller's variables of type
      [pthread_barrier_t] and [pthread_barrierattr_t], the blocks obtained
      from [calloc], and the process-wide critical section
      [ptw32_barrier_test_init_lock].  Blocks are never reused, so a
      dangling pointer stays dangling and its dereference is a [Fault].
    - The functions that run to completion without waiting for another
      thread ([pthread_barrier_init], [ptw32_barrier_check_need_init],
      [pthread_barrierattr_init], [pthread_barrierattr_destroy],
      [pthread_barrierattr_setpshared]) are written in a state-and-error
      monad [M].
    - [pthread_barrier_wait] and [pthread_barrier_destroy] are written as
      one step per statement ([thread_step]) so that several threads can
      be interleaved ([step]); the single-threaded meaning of a call is
      the iteration [run] of those steps.
    - The mutex, the semaphore, the allocator, the critical section and
      the cancellation context are the collaborators of the file: their
      code and the headers are not part of it.  They are modelled by
      their contracts, and the outcomes those leave open are read from
      an [env]. *)

From Stdlib Require Import ZArith Lia.
From stdpp Require Import base option gmap.

Local Open Scope Z_scope.

(** ** Machine integers, constants *)

(** [int] and [LONG] are 32 bits wide; [wrap_int] is two's-complement
    reduction into that range. *)
Definition INT_MAX : Z := 2147483647.
Definition INT_MIN : Z := -2147483648.
Definition wrap_int (z : Z) : Z := (z + 2147483648) mod 4294967296 - 2147483648.

(** Modelled from the spec: [errno.h] and [pthread.h] are not among the
    sources.  The spec names the results InvalidArgument ([EINVAL]),
    OutOfMemory ([ENOMEM]), Busy ([EBUSY]), Unsupported ([ENOSYS]) and
    SerialThread, and the two sharing modes; the numbers are those of the
    Win32 C runtime and of the library's [pthread.h].  The proofs use only
    that the error codes differ from 0. *)
Definition ENOMEM : Z := 12.
Definition EBUSY : Z := 16.
Definition EINVAL : Z := 22.
Definition ENOSYS : Z := 40.
Definition EPERM : Z := 1.
Definition PTHREAD_PROCESS_PRIVATE : Z := 0.
Definition PTHREAD_PROCESS_SHARED : Z := 1.
Definition PTHREAD_BARRIER_SERIAL_THREAD : Z := -1.

(** Modelled from the spec: the cancellation state and type of a thread,
    under the names lines 255-258 use. *)
Inductive cancel_state := PTHREAD_CANCEL_ENABLE | PTHREAD_CANCEL_DISABLED.
Inductive cancel_type := PTHREAD_CANCEL_DEFERRED | PTHREAD_CANCEL_ASYNCHRONOUS.

#[global] Instance cancel_state_eq_dec : EqDecision cancel_state.
Proof. solve_decision. Defined.
#[global] Instance cancel_type_eq_dec : EqDecision cancel_type.
Proof. solve_decision. Defined.

(** ** Data *)

Abbreviation addr := positive.
Abbreviation tid := nat.

(** A value of type [pthread_barrier_t]: a pointer to a
    [struct pthread_barrier_t_], or one of two sentinels. *)
Inductive pthread_barrier_t :=
| Null                       (* NULL *)
| PTW32_OBJECT_AUTO_INIT     (* the static initialiser *)
| Ptr (a : addr).

(** Modelled from the spec: the macro [PTW32_OBJECT_INVALID] is defined in
    implement.h, which is not among the sources; the spec gives the
    destroyed handle as the null sentinel, and line 163 stores [NULL] to
    invalidate a handle. *)
Definition PTW32_OBJECT_INVALID : pthread_barrier_t := Null.

(** Line 218 spells the static initialiser [PTHREAD_OBJECT_AUTO_INIT]. *)
Definition PTHREAD_OBJECT_AUTO_INIT : pthread_barrier_t := PTW32_OBJECT_AUTO_INIT.

#[global] Instance pthread_barrier_t_eq_dec : EqDecision pthread_barrier_t.
Proof. solve_decision. Defined.

(** Modelled from the spec: an exclusive lock is unlocked or owned by one
    thread; [MtxNull] is a lock not yet constructed or destroyed. *)
Inductive mutex_state :=
| MtxNull                    (* zeroed storage, or destroyed *)
| MtxUnlocked
| MtxLocked (owner : tid).

#[global] Instance mutex_state_eq_dec : EqDecision mutex_state.
Proof. solve_decision. Defined.

(** Modelled from the spec: a counting semaphore, with the sharing mode it
    was created with.  In a block, [None] is a semaphore not yet
    constructed or destroyed. *)
Record sem_t_ := { sem_pshared : Z; sem_value : Z }.

(** Modelled from the spec: [struct pthread_barrier_t_] is declared in
    implement.h; these are the four fields barrier.c uses. *)
Record pthread_barrier_t_ := {
  nCurrentBarrierHeight : Z;
  nInitialBarrierHeight : Z;
  mtxExclusiveAccess : mutex_state;
  semBarrierBreeched : option sem_t_;
}.

(** Modelled from the spec: [struct pthread_barrierattr_t_], with the one
    field barrier.c uses. *)
Record pthread_barrierattr_t_ := { pshared : Z }.

(** A value of type [pthread_barrierattr_t] is a pointer, [None] for NULL. *)
Abbreviation pthread_barrierattr_t := (option addr).

Record memory := {
  barrier_vars : gmap addr pthread_barrier_t;
  barrier_heap : gmap addr pthread_barrier_t_;
  attr_vars : gmap addr pthread_barrierattr_t;
  attr_heap : gmap addr pthread_barrierattr_t_;
  next_block : addr;
  ptw32_barrier_test_init_lock : option tid;
}.

Definition set_barrier_vars (f : gmap addr pthread_barrier_t → gmap addr pthread_barrier_t)
    (m : memory) : memory :=
  {| barrier_vars := f (barrier_vars m); barrier_heap := barrier_heap m;
     attr_vars := attr_vars m; attr_heap := attr_heap m;
     next_block := next_block m;
     ptw32_barrier_test_init_lock := ptw32_barrier_test_init_lock m |}.

Definition set_barrier_heap (f : gmap addr pthread_barrier_t_ → gmap addr pthread_barrier_t_)
    (m : memory) : memory :=
  {| barrier_vars := barrier_vars m; barrier_heap := f (barrier_heap m);
     attr_vars := attr_vars m; attr_heap := attr_heap m;
     next_block := next_block m;
     ptw32_barrier_test_init_lock := ptw32_barrier_test_init_lock m |}.

Definition set_attr_vars (f : gmap addr pthread_barrierattr_t → gmap addr pthread_barrierattr_t)
    (m : memory) : memory :=
  {| barrier_vars := barrier_vars m; barrier_heap := barrier_heap m;
     attr_vars := f (attr_vars m); attr_heap := attr_heap m;
     next_block := next_block m;
     ptw32_barrier_test_init_lock := ptw32_barrier_test_init_lock m |}.

Definition set_attr_heap (f : gmap addr pthread_barrierattr_t_ → gmap addr pthread_barrierattr_t_)
    (m : memory) : memory :=
  {| barrier_vars := barrier_vars m; barrier_heap := barrier_heap m;
     attr_vars := attr_vars m; attr_heap := f (attr_heap m);
     next_block := next_block m;
     ptw32_barrier_test_init_lock := ptw32_barrier_test_init_lock m |}.

Definition set_next_block (n : addr) (m : memory) : memory :=
  {| barrier_vars := barrier_vars m; barrier_heap := barrier_heap m;
     attr_vars := attr_vars m; attr_heap := attr_heap m;
     next_block := n;
     ptw32_barrier_test_init_lock := ptw32_barrier_test_init_lock m |}.

Definition set_guard (g : option tid) (m : memory) : memory :=
  {| barrier_vars := barrier_vars m; barrier_heap := barrier_heap m;
     attr_vars := attr_vars m; attr_heap := attr_heap m;
     next_block := next_block m;
     ptw32_barrier_test_init_lock := g |}.

(** Modelled from the spec: what the collaborators decide on their own.

    [unpassed_count] is no collaborator's and is not from the spec.  The
    call at line 68 gives [pthread_barrier_init] two arguments where the
    function takes three (lines 87-89): no count is passed, and what the
    callee then reads from its parameter [count] at line 113 is not
    determined by the source.  It is a value of the environment, any
    [int]. *)
Record env := {
  calloc_ok : bool;            (* does the next [calloc] find storage *)
  mutex_init_result : Z;       (* what [pthread_mutex_init] returns *)
  sem_init_result : Z;         (* what [sem_init] returns *)
  sem_wait_errno : option Z;   (* [Some e]: [sem_wait] fails with [errno = e] *)
  unpassed_count : Z;          (* [count] in the callee of line 68 *)
}.

(** ** The monad of the straight-line functions *)

Inductive outcome (A : Type) : Type :=
| Done (a : A)
| Fault          (* NULL, a sentinel or a freed block is dereferenced *)
| Blocked.       (* the thread waits for another thread *)
Arguments Done {A} a.
Arguments Fault {A}.
Arguments Blocked {A}.

Definition M (A : Type) : Type := memory → outcome (A * memory).

Definition ret {A} (a : A) : M A := λ m, Done (a, m).
Definition bind {A B} (c : M A) (k : A → M B) : M B :=
  λ m, match c m with
       | Done (a, m') => k a m'
       | Fault => Fault
       | Blocked => Blocked
       end.
Definition fault {A} : M A := λ _, Fault.
Definition get : M memory := λ m, Done (m, m).
Definition modify (f : memory → memory) : M unit := λ m, Done (tt, f m).

Notation "'let*' x := c 'in' k" := (bind c (λ x, k))
  (at level 10, x name, c at level 100, k at level 200).

(** ** The collaborators *)

(** Modelled from the spec: [calloc(1, size)] gives a zeroed block at a new
    address, or NULL. *)
Definition zeroed_barrier : pthread_barrier_t_ :=
  {| nCurrentBarrierHeight := 0; nInitialBarrierHeight := 0;
     mtxExclusiveAccess := MtxNull; semBarrierBreeched := None |}.

Definition calloc_barrier (e : env) : M (option addr) :=
  if calloc_ok e then
    let* m := get in
    let a := next_block m in
    let* _ := modify (set_barrier_heap (insert a zeroed_barrier)) in
    let* _ := modify (set_next_block (Pos.succ a)) in
    ret (Some a)
  else ret None.

Definition calloc_attr (e : env) : M (option addr) :=
  if calloc_ok e then
    let* m := get in
    let a := next_block m in
    let* _ := modify (set_attr_heap (insert a {| pshared := 0 |})) in
    let* _ := modify (set_next_block (Pos.succ a)) in
    ret (Some a)
  else ret None.

(** Modelled from the spec: [free(p)]; [free(NULL)] does nothing, and a
    block is freed once. *)
Definition free_barrier (p : option addr) : M unit :=
  λ m, match p with
       | None => Done (tt, m)
       | Some a =>
           match barrier_heap m !! a with
           | Some _ => Done (tt, set_barrier_heap (delete a) m)
           | None => Fault
           end
       end.

Definition free_attr (p : option addr) : M unit :=
  λ m, match p with
       | None => Done (tt, m)
       | Some a =>
           match attr_heap m !! a with
           | Some _ => Done (tt, set_attr_heap (delete a) m)
           | None => Fault
           end
       end.

(** Access to a barrier block through a pointer. *)
Definition load_barrier (a : addr) : M pthread_barrier_t_ :=
  λ m, match barrier_heap m !! a with
       | Some o => Done (o, m)
       | None => Fault
       end.

Definition store_barrier (a : addr) (o : pthread_barrier_t_) : M unit :=
  λ m, match barrier_heap m !! a with
       | Some _ => Done (tt, set_barrier_heap (insert a o) m)
       | None => Fault
       end.

Definition load_attr (a : addr) : M pthread_barrierattr_t_ :=
  λ m, match attr_heap m !! a with
       | Some o => Done (o, m)
       | None => Fault
       end.

Definition store_attr (a : addr) (o : pthread_barrierattr_t_) : M unit :=
  λ m, match attr_heap m !! a with
       | Some _ => Done (tt, set_attr_heap (insert a o) m)
       | None => Fault
       end.

(** Access to the caller's variables. *)
Definition load_barrier_var (p : addr) : M pthread_barrier_t :=
  λ m, match barrier_vars m !! p with
       | Some v => Done (v, m)
       | None => Fault
       end.

Definition store_barrier_var (p : addr) (v : pthread_barrier_t) : M unit :=
  λ m, match barrier_vars m !! p with
       | Some _ => Done (tt, set_barrier_vars (insert p v) m)
       | None => Fault
       end.

Definition load_attr_var (p : addr) : M pthread_barrierattr_t :=
  λ m, match attr_vars m !! p with
       | Some v => Done (v, m)
       | None => Fault
       end.

Definition store_attr_var (p : option addr) (v : pthread_barrierattr_t) : M unit :=
  λ m, match p with
       | None => Fault
       | Some p =>
           match attr_vars m !! p with
           | Some _ => Done (tt, set_attr_vars (insert p v) m)
           | None => Fault
           end
       end.

(** Field updates of a barrier block. *)
Definition with_current (z : Z) (o : pthread_barrier_t_) : pthread_barrier_t_ :=
  {| nCurrentBarrierHeight := z;
     nInitialBarrierHeight := nInitialBarrierHeight o;
     mtxExclusiveAccess := mtxExclusiveAccess o;
     semBarrierBreeched := semBarrierBreeched o |}.

Definition with_initial (z : Z) (o : pthread_barrier_t_) : pthread_barrier_t_ :=
  {| nCurrentBarrierHeight := nCurrentBarrierHeight o;
     nInitialBarrierHeight := z;
     mtxExclusiveAccess := mtxExclusiveAccess o;
     semBarrierBreeched := semBarrierBreeched o |}.

Definition with_mutex (x : mutex_state) (o : pthread_barrier_t_) : pthread_barrier_t_ :=
  {| nCurrentBarrierHeight := nCurrentBarrierHeight o;
     nInitialBarrierHeight := nInitialBarrierHeight o;
     mtxExclusiveAccess := x;
     semBarrierBreeched := semBarrierBreeched o |}.

Definition with_sem (x : option sem_t_) (o : pthread_barrier_t_) : pthread_barrier_t_ :=
  {| nCurrentBarrierHeight := nCurrentBarrierHeight o;
     nInitialBarrierHeight := nInitialBarrierHeight o;
     mtxExclusiveAccess := mtxExclusiveAccess o;
     semBarrierBreeched := x |}.

(** Modelled from the spec: the exclusive lock of the block at [a], with
    acquire, try-acquire, release and destroy.  Each function returns
    what the C function returns: 0, or an error code.  A lock that is
    owned makes [pthread_mutex_lock] wait and [pthread_mutex_trylock] and
    [pthread_mutex_destroy] fail with [EBUSY]; only the owner releases. *)
Definition pthread_mutex_init (e : env) (a : addr) : M Z :=
  let* o := load_barrier a in
  if decide (mutex_init_result e = 0) then
    let* _ := store_barrier a (with_mutex MtxUnlocked o) in ret 0
  else ret (mutex_init_result e).

Definition pthread_mutex_lock (t : tid) (a : addr) : M Z :=
  let* o := load_barrier a in
  match mtxExclusiveAccess o with
  | MtxNull => ret EINVAL
  | MtxUnlocked => let* _ := store_barrier a (with_mutex (MtxLocked t) o) in ret 0
  | MtxLocked _ => λ _, Blocked
  end.

Definition pthread_mutex_trylock (t : tid) (a : addr) : M Z :=
  let* o := load_barrier a in
  match mtxExclusiveAccess o with
  | MtxNull => ret EINVAL
  | MtxUnlocked => let* _ := store_barrier a (with_mutex (MtxLocked t) o) in ret 0
  | MtxLocked _ => ret EBUSY
  end.

Definition pthread_mutex_unlock (t : tid) (a : addr) : M Z :=
  let* o := load_barrier a in
  match mtxExclusiveAccess o with
  | MtxNull => ret EINVAL
  | MtxUnlocked => ret EPERM
  | MtxLocked t' =>
      if decide (t' = t) then let* _ := store_barrier a (with_mutex MtxUnlocked o) in ret 0
      else ret EPERM
  end.

Definition pthread_mutex_destroy (a : addr) : M Z :=
  let* o := load_barrier a in
  match mtxExclusiveAccess o with
  | MtxNull => ret EINVAL
  | MtxUnlocked => let* _ := store_barrier a (with_mutex MtxNull o) in ret 0
  | MtxLocked _ => ret EBUSY
  end.

(** Modelled from the spec: the counting semaphore of the block at [a],
    created with a count and a sharing mode, released in bulk by
    [sem_post_multiple], waited for by [sem_wait]. *)
Definition sem_init (e : env) (a : addr) (psh : Z) (value : Z) : M Z :=
  let* o := load_barrier a in
  if decide (sem_init_result e = 0) then
    let* _ := store_barrier a (with_sem (Some {| sem_pshared := psh; sem_value := value |}) o) in
    ret 0
  else ret (sem_init_result e).

Definition sem_destroy (a : addr) : M Z :=
  let* o := load_barrier a in
  match semBarrierBreeched o with
  | None => ret (-1)
  | Some _ => let* _ := store_barrier a (with_sem None o) in ret 0
  end.

Definition sem_post_multiple (a : addr) (n : Z) : M Z :=
  let* o := load_barrier a in
  match semBarrierBreeched o with
  | None => ret (-1)
  | Some s =>
      let* _ := store_barrier a
        (with_sem (Some {| sem_pshared := sem_pshared s; sem_value := sem_value s + n |}) o) in
      ret 0
  end.

(** Modelled from the spec: [sem_wait] takes one count, waits while there
    is none, or fails; it returns its value and, when that is not 0,
    [errno]. *)
Definition sem_wait (e : env) (a : addr) : M (Z * Z) :=
  let* o := load_barrier a in
  match sem_wait_errno e with
  | Some err => ret (-1, err)
  | None =>
      match semBarrierBreeched o with
      | None => ret (-1, EINVAL)
      | Some s =>
          if decide (0 < sem_value s) then
            let* _ := store_barrier a
              (with_sem (Some {| sem_pshared := sem_pshared s;
                                 sem_value := sem_value s - 1 |}) o) in
            ret (0, 0)
          else λ _, Blocked
      end
  end.

(** Modelled from the spec: the process-wide lock
    [ptw32_barrier_test_init_lock], a Win32 critical section. *)
Definition EnterCriticalSection (t : tid) : M unit :=
  λ m, match ptw32_barrier_test_init_lock m with
       | None => Done (tt, set_guard (Some t) m)
       | Some _ => Blocked
       end.

Definition LeaveCriticalSection : M unit := modify (set_guard None).

(** ** pthread_barrier_init (lines 86-137)

    The local [b] is declared [pthread_barrier_t *] and used as a pointer
    to the structure; it is the address of the new block.  The labels
    [FAIL1], [FAIL0] and [DONE] are the tails of the three branches. *)

Definition pthread_barrier_init (e : env) (barrier : option addr)
    (attr : option addr) (count : Z) : M Z :=
  match barrier with
  | None => ret EINVAL
  | Some _ =>
      let* b := calloc_barrier e in
      match b with
      | None =>
          (* FAIL0 *)
          let* _ := free_barrier None in ret ENOMEM
      | Some a =>
          let* psh :=
            match attr with
            | None => ret PTHREAD_PROCESS_PRIVATE
            | Some pa =>
                let* v := load_attr_var pa in
                match v with
                | None => ret PTHREAD_PROCESS_PRIVATE
                | Some oa => let* ao := load_attr oa in ret (pshared ao)
                end
            end in
          let* o := load_barrier a in
          let* _ := store_barrier a (with_current count (with_initial count o)) in
          let* result := pthread_mutex_init e a in
          if decide (0 ≠ result) then
            (* FAIL0 *)
            let* _ := free_barrier (Some a) in ret result
          else
            let* result := sem_init e a psh 0 in
            if decide (0 ≠ result) then
              (* FAIL1, FAIL0 *)
              let* _ := pthread_mutex_destroy a in
              let* _ := free_barrier (Some a) in
              ret result
            else
              (* DONE *)
              ret result
      end
  end.

(** ** ptw32_barrier_check_need_init (lines 30-83)

    [barrier] is dereferenced without a test; the caller passes a
    variable.  Line 68 is [pthread_barrier_init(barrier, NULL)]: the
    third argument is missing, and the callee's [count] is the
    environment's [unpassed_count]. *)

Definition ptw32_barrier_check_need_init (e : env) (t : tid) (barrier : addr) : M Z :=
  let* _ := EnterCriticalSection t in
  let* v := load_barrier_var barrier in
  let* result :=
    if decide (v = PTW32_OBJECT_AUTO_INIT) then
      pthread_barrier_init e (Some barrier) None (unpassed_count e)
    else if decide (v = Null) then ret EINVAL
    else ret 0 in
  let* _ := LeaveCriticalSection in
  ret result.

(** ** The attribute functions (lines 283-516) *)

Definition pthread_barrierattr_init (e : env) (attr : option addr) : M Z :=
  let* ba := calloc_attr e in
  let result := match ba with None => ENOMEM | Some _ => 0 end in
  (* ba->pshared = PTHREAD_PROCESS_PRIVATE *)
  let* _ := match ba with
            | None => fault
            | Some a => store_attr a {| pshared := PTHREAD_PROCESS_PRIVATE |}
            end in
  let* _ := store_attr_var attr ba in
  ret result.

Definition pthread_barrierattr_destroy (attr : option addr) : M Z :=
  match attr with
  | None => ret EINVAL
  | Some p =>
      let* v := load_attr_var p in
      match v with
      | None => ret EINVAL
      | Some ba =>
          let* _ := store_attr_var (Some p) None in
          let* _ := free_attr (Some ba) in
          ret 0
      end
  end.

(** [_POSIX_THREAD_PROCESS_SHARED] is a build-time macro; the section
    variable says whether it is defined. *)
Section Setpshared.
Variable posix_thread_process_shared : bool.

Definition pthread_barrierattr_setpshared (attr : option addr) (psh : Z) : M Z :=
  match attr with
  | None => ret EINVAL
  | Some p =>
      let* v := load_attr_var p in
      match v with
      | Some ba =>
          if decide (psh = PTHREAD_PROCESS_SHARED ∨ psh = PTHREAD_PROCESS_PRIVATE) then
            let '(result, psh') :=
              if decide (psh = PTHREAD_PROCESS_SHARED) then
                if posix_thread_process_shared then (0, psh)
                else (ENOSYS, PTHREAD_PROCESS_PRIVATE)
              else (0, psh) in
            (* (attr)->pshared = pshared *)
            let* _ := store_attr ba {| pshared := psh' |} in
            ret result
          else ret EINVAL
      | None => ret EINVAL
      end
  end.

End Setpshared.

(** ** Threads

    A thread carries its cancellation context, its stack of cleanup
    handlers (each one is [pthread_mutex_unlock] on the mutex of a block),
    and the parameter and locals of the call of [pthread_barrier_wait] or
    [pthread_barrier_destroy] it is in. *)

Inductive label :=
| Idle
(* pthread_barrier_wait *)
| W_entry            (* line 213 *)
| W_auto_init        (* lines 218-224 *)
| W_load             (* line 226 *)
| W_lock             (* lines 228-229 *)
| W_decrement        (* line 231 *)
| W_reset            (* line 233 *)
| W_unlock           (* line 234 *)
| W_post             (* lines 235-243 *)
| W_cancel_off       (* lines 251-259 *)
| W_cleanup_push     (* lines 262-263 *)
| W_sem_wait         (* lines 265-268 *)
| W_cancel_restore   (* lines 270-273 *)
| W_cleanup_pop      (* line 275 *)
(* pthread_barrier_destroy *)
| D_entry            (* line 145 *)
| D_test             (* line 150 *)
| D_load             (* line 152 *)
| D_trylock          (* line 154 *)
| D_invalidate       (* line 163 *)
| D_sem_destroy      (* line 165 *)
| D_unlock           (* line 166 *)
| D_mutex_destroy    (* line 167 *)
| D_free             (* line 168 *)
| D_static           (* lines 176-200 *)
(* the call is over *)
| Returned (value : Z)
| Cancelled.

#[global] Instance label_eq_dec : EqDecision label.
Proof. solve_decision. Defined.

(** Modelled from the spec: the cancellation context of a thread is its
    state ([pthread_setcancelstate] sets it and returns the previous one),
    its type ([pthread_getcanceltype]) and its stack of cleanup handlers
    ([pthread_cleanup_push], [pthread_cleanup_pop]).  The other fields are
    the parameter and the locals of lines 142-143, 210-211 and 251-253;
    [oldCancelState] is [None] while it is uninitialised. *)
Record thread := {
  pc : label;
  thr_cancelstate : cancel_state;
  thr_canceltype : cancel_type;
  cleanup_stack : list addr;
  barrier : option addr;
  result : Z;
  b : pthread_barrier_t;
  cancelType : cancel_type;
  oldCancelState : option cancel_state;
}.

Definition set_pc (l : label) (th : thread) : thread :=
  {| pc := l; thr_cancelstate := thr_cancelstate th;
     thr_canceltype := thr_canceltype th; cleanup_stack := cleanup_stack th;
     barrier := barrier th; result := result th; b := b th;
     cancelType := cancelType th; oldCancelState := oldCancelState th |}.

Definition set_cancelstate (x : cancel_state) (th : thread) : thread :=
  {| pc := pc th; thr_cancelstate := x;
     thr_canceltype := thr_canceltype th; cleanup_stack := cleanup_stack th;
     barrier := barrier th; result := result th; b := b th;
     cancelType := cancelType th; oldCancelState := oldCancelState th |}.

Definition set_cleanup_stack (x : list addr) (th : thread) : thread :=
  {| pc := pc th; thr_cancelstate := thr_cancelstate th;
     thr_canceltype := thr_canceltype th; cleanup_stack := x;
     barrier := barrier th; result := result th; b := b th;
     cancelType := cancelType th; oldCancelState := oldCancelState th |}.

Definition set_barrier (x : option addr) (th : thread) : thread :=
  {| pc := pc th; thr_cancelstate := thr_cancelstate th;
     thr_canceltype := thr_canceltype th; cleanup_stack := cleanup_stack th;
     barrier := x; result := result th; b := b th;
     cancelType := cancelType th; oldCancelState := oldCancelState th |}.

Definition set_result (x : Z) (th : thread) : thread :=
  {| pc := pc th; thr_cancelstate := thr_cancelstate th;
     thr_canceltype := thr_canceltype th; cleanup_stack := cleanup_stack th;
     barrier := barrier th; result := x; b := b th;
     cancelType := cancelType th; oldCancelState := oldCancelState th |}.

Definition set_b (x : pthread_barrier_t) (th : thread) : thread :=
  {| pc := pc th; thr_cancelstate := thr_cancelstate th;
     thr_canceltype := thr_canceltype th; cleanup_stack := cleanup_stack th;
     barrier := barrier th; result := result th; b := x;
     cancelType := cancelType th; oldCancelState := oldCancelState th |}.

Definition set_cancelType (x : cancel_type) (th : thread) : thread :=
  {| pc := pc th; thr_cancelstate := thr_cancelstate th;
     thr_canceltype := thr_canceltype th; cleanup_stack := cleanup_stack th;
     barrier := barrier th; result := result th; b := b th;
     cancelType := x; oldCancelState := oldCancelState th |}.

Definition set_oldCancelState (x : option cancel_state) (th : thread) : thread :=
  {| pc := pc th; thr_cancelstate := thr_cancelstate th;
     thr_canceltype := thr_canceltype th; cleanup_stack := cleanup_stack th;
     barrier := barrier th; result := result th; b := b th;
     cancelType := cancelType th; oldCancelState := x |}.

(** [*barrier] for the parameter of the running call. *)
Definition load_handle (th : thread) : M pthread_barrier_t :=
  match barrier th with
  | None => fault
  | Some p => load_barrier_var p
  end.

(** The block [b] points to, for [b->...]. *)
Definition block_of (th : thread) : M addr :=
  match b th with
  | Ptr a => let* _ := load_barrier a in ret a
  | _ => fault
  end.

(** ** pthread_barrier_wait (lines 207-280), one statement at a time

    Lines 228 and 234 pass [b->mtxExclusiveAccess] where lines 154, 166
    and 263 pass its address; all of them are read as the mutex of the
    block.  A label that is no statement of the function has no step. *)

Definition wait_step (e : env) (t : tid) (th : thread) : M thread :=
  match pc th with
  | W_entry =>
      match barrier th with
      | None => ret (set_pc (Returned EINVAL) th)
      | Some p =>
          let* v := load_barrier_var p in
          if decide (v = PTW32_OBJECT_INVALID) then ret (set_pc (Returned EINVAL) th)
          else ret (set_pc W_auto_init th)
      end
  | W_auto_init =>
      let* v := load_handle th in
      if decide (v = PTHREAD_OBJECT_AUTO_INIT) then
        match barrier th with
        | None => fault
        | Some p =>
            let* r := ptw32_barrier_check_need_init e t p in
            if decide (r ≠ 0) then ret (set_pc (Returned r) (set_result r th))
            else ret (set_pc W_load (set_result r th))
        end
      else ret (set_pc W_load th)
  | W_load =>
      let* v := load_handle th in
      ret (set_pc W_lock (set_b v th))
  | W_lock =>
      let* a := block_of th in
      let* r := pthread_mutex_lock t a in
      if decide (0 = r) then ret (set_pc W_decrement (set_result r th))
      else ret (set_pc (Returned r) (set_result r th))
  | W_decrement =>
      let* a := block_of th in
      let* o := load_barrier a in
      let h := wrap_int (nCurrentBarrierHeight o - 1) in
      let* _ := store_barrier a (with_current h o) in
      if decide (0 = h) then ret (set_pc W_reset th)
      else ret (set_pc W_cancel_off th)
  | W_reset =>
      let* a := block_of th in
      let* o := load_barrier a in
      let* _ := store_barrier a (with_current (nInitialBarrierHeight o) o) in
      ret (set_pc W_unlock th)
  | W_unlock =>
      let* a := block_of th in
      let* _ := pthread_mutex_unlock t a in
      ret (set_pc W_post th)
  | W_post =>
      let* a := block_of th in
      let* o := load_barrier a in
      (* the source names the field [InitialBarrierHeight] here *)
      let* _ := sem_post_multiple a (nInitialBarrierHeight o) in
      ret (set_pc (Returned PTHREAD_BARRIER_SERIAL_THREAD)
             (set_result PTHREAD_BARRIER_SERIAL_THREAD th))
  | W_cancel_off =>
      let th1 := set_cancelType (thr_canceltype th) th in
      if decide (cancelType th1 = PTHREAD_CANCEL_DEFERRED) then
        ret (set_pc W_cleanup_push
               (set_cancelstate PTHREAD_CANCEL_DISABLED
                  (set_oldCancelState (Some (thr_cancelstate th1)) th1)))
      else ret (set_pc W_cleanup_push th1)
  | W_cleanup_push =>
      match b th with
      | Ptr a => ret (set_pc W_sem_wait (set_cleanup_stack (a :: cleanup_stack th) th))
      | _ => fault
      end
  | W_sem_wait =>
      let* a := block_of th in
      let* r := sem_wait e a in
      if decide (0 ≠ r.1) then ret (set_pc W_cancel_restore (set_result r.2 th))
      else ret (set_pc W_cancel_restore th)
  | W_cancel_restore =>
      if decide (cancelType th = PTHREAD_CANCEL_DEFERRED) then
        match oldCancelState th with
        | Some s => ret (set_pc W_cleanup_pop (set_cancelstate s th))
        | None => fault
        end
      else ret (set_pc W_cleanup_pop th)
  | W_cleanup_pop =>
      match cleanup_stack th with
      | a :: rest =>
          let* _ := pthread_mutex_unlock t a in
          ret (set_pc (Returned (result th)) (set_cleanup_stack rest th))
      | [] => fault
      end
  | _ => λ _, Blocked
  end.

(** ** pthread_barrier_destroy (lines 139-204), one statement at a time

    The section guarded by [ptw32_barrier_test_init_lock] (lines 176-200)
    is one step. *)

Definition destroy_step (t : tid) (th : thread) : M thread :=
  match pc th with
  | D_entry =>
      match barrier th with
      | None => ret (set_pc (Returned EINVAL) th)
      | Some p =>
          let* v := load_barrier_var p in
          if decide (v = PTW32_OBJECT_INVALID) then ret (set_pc (Returned EINVAL) th)
          else ret (set_pc D_test th)
      end
  | D_test =>
      let* v := load_handle th in
      if decide (v ≠ PTW32_OBJECT_AUTO_INIT) then ret (set_pc D_load th)
      else ret (set_pc D_static th)
  | D_load =>
      let* v := load_handle th in
      ret (set_pc D_trylock (set_b v th))
  | D_trylock =>
      let* a := block_of th in
      let* r := pthread_mutex_trylock t a in
      if decide (0 = r) then ret (set_pc D_invalidate th)
      else ret (set_pc (Returned (result th)) th)
  | D_invalidate =>
      match barrier th with
      | None => fault
      | Some p =>
          let* _ := store_barrier_var p Null in
          ret (set_pc D_sem_destroy th)
      end
  | D_sem_destroy =>
      let* a := block_of th in
      let* _ := sem_destroy a in
      ret (set_pc D_unlock th)
  | D_unlock =>
      let* a := block_of th in
      let* _ := pthread_mutex_unlock t a in
      ret (set_pc D_mutex_destroy th)
  | D_mutex_destroy =>
      let* a := block_of th in
      let* _ := pthread_mutex_destroy a in
      ret (set_pc D_free th)
  | D_free =>
      let* a := block_of th in
      let* _ := free_barrier (Some a) in
      ret (set_pc (Returned (result th)) th)
  | D_static =>
      let* _ := EnterCriticalSection t in
      let* v := load_handle th in
      let* th' :=
        if decide (v = PTW32_OBJECT_AUTO_INIT) then
          match barrier th with
          | None => fault
          | Some p => let* _ := store_barrier_var p Null in ret th
          end
        else ret (set_result EBUSY th) in
      let* _ := LeaveCriticalSection in
      ret (set_pc (Returned (result th')) th')
  | _ => λ _, Blocked
  end.

Definition in_wait (l : label) : bool :=
  match l with
  | W_entry | W_auto_init | W_load | W_lock | W_decrement | W_reset
  | W_unlock | W_post | W_cancel_off | W_cleanup_push | W_sem_wait
  | W_cancel_restore | W_cleanup_pop => true
  | _ => false
  end.

Definition thread_step (e : env) (t : tid) (th : thread) : M thread :=
  if in_wait (pc th) then wait_step e t th else destroy_step t th.

(** A call starts from a thread that is in no call.  [pthread_barrier_wait]
    leaves [result] uninitialised: it keeps what the thread had there;
    [pthread_barrier_destroy] starts it at 0. *)
Inductive call :=
| Call_wait (barrier : option addr)
| Call_destroy (barrier : option addr).

Definition between_calls (l : label) : bool :=
  match l with
  | Idle | Returned _ => true
  | _ => false
  end.

Definition enter (c : call) (th : thread) : thread :=
  match c with
  | Call_wait p => set_pc W_entry (set_barrier p th)
  | Call_destroy p => set_pc D_entry (set_result 0 (set_barrier p th))
  end.

(** The call run by one thread with no other thread taking a step:
    at most [n] statements. *)
Fixpoint run (e : env) (n : nat) (t : tid) (th : thread) : M thread :=
  match n with
  | O => ret th
  | S n' =>
      if between_calls (pc th) then ret th
      else let* th' := thread_step e t th in run e n' t th'
  end.

Definition pthread_barrier_wait (e : env) (n : nat) (t : tid) (th : thread)
    (barrier : option addr) : M thread :=
  run e n t (enter (Call_wait barrier) th).

Definition pthread_barrier_destroy (e : env) (n : nat) (t : tid) (th : thread)
    (barrier : option addr) : M thread :=
  run e n t (enter (Call_destroy barrier) th).

(** ** Several threads

    The threads of the process take turns; each turn is one statement of
    the call a thread is in, the start of a new call, or a whole
    [pthread_barrier_init] (which touches no block another thread can
    reach).  A statement that waits or faults is no turn.

    Modelled from the spec: a cancellation request is honoured only while
    the thread is blocked in [sem_wait], and only if its cancellation
    state is enabled; the cleanup handlers then run, last pushed first,
    and the thread ends. *)

Record system := { threads : gmap tid thread; mem : memory }.

Fixpoint run_cleanup (t : tid) (handlers : list addr) : M unit :=
  match handlers with
  | [] => ret tt
  | a :: rest => let* _ := pthread_mutex_unlock t a in run_cleanup t rest
  end.

Inductive step (s : system) : system → Prop :=
| step_enter t th c :
    threads s !! t = Some th →
    between_calls (pc th) = true →
    step s {| threads := <[t := enter c th]> (threads s); mem := mem s |}
| step_statement e t th th' m' :
    threads s !! t = Some th →
    thread_step e t th (mem s) = Done (th', m') →
    step s {| threads := <[t := th']> (threads s); mem := m' |}
| step_init e t th barrier attr count r m' :
    threads s !! t = Some th →
    between_calls (pc th) = true →
    pthread_barrier_init e barrier attr count (mem s) = Done (r, m') →
    step s {| threads := threads s; mem := m' |}
| step_cancel t th m' :
    threads s !! t = Some th →
    pc th = W_sem_wait →
    thr_cancelstate th = PTHREAD_CANCEL_ENABLE →
    run_cleanup t (cleanup_stack th) (mem s) = Done (tt, m') →
    step s {| threads := <[t := set_pc Cancelled (set_cleanup_stack [] th)]> (threads s);
              mem := m' |}.

(** Where an execution may start: no thread is inside a call, and every
    block is as line 113 leaves it, both heights equal. *)
Definition initial (s : system) : Prop :=
  (∀ t th, threads s !! t = Some th → pc th = Idle) ∧
  (∀ a o, barrier_heap (mem s) !! a = Some o →
          (a < next_block (mem s))%positive ∧
          nCurrentBarrierHeight o = nInitialBarrierHeight o).

Definition reachable (s : system) : Prop := ∃ s0, initial s0 ∧ rtc step s0 s.

(** ** The invariant of the heights

    [critical]: the two statements between which [nCurrentBarrierHeight]
    may be 0.  A thread about to run one of them owns the mutex of the
    block its [b] points to. *)

Definition critical (l : label) : bool :=
  match l with
  | W_decrement | W_reset => true
  | _ => false
  end.

Definition blocks_allocated (m : memory) : Prop :=
  ∀ a o, barrier_heap m !! a = Some o → (a < next_block m)%positive.

Definition heights_in_range (s : system) : Prop :=
  ∀ a o, barrier_heap (mem s) !! a = Some o →
    0 < nInitialBarrierHeight o ≤ INT_MAX →
    0 ≤ nCurrentBarrierHeight o ≤ nInitialBarrierHeight o ∧
    (nCurrentBarrierHeight o = 0 →
     ∃ t th, threads s !! t = Some th ∧ pc th = W_reset ∧ b th = Ptr a ∧
             mtxExclusiveAccess o = MtxLocked t).

Definition critical_holds_lock (s : system) : Prop :=
  ∀ t th a, threads s !! t = Some th → critical (pc th) = true → b th = Ptr a →
    (a < next_block (mem s))%positive ∧
    ∀ o, barrier_heap (mem s) !! a = Some o → mtxExclusiveAccess o = MtxLocked t.

Definition barrier_invariant (s : system) : Prop :=
  blocks_allocated (mem s) ∧ heights_in_range s ∧ critical_holds_lock s.

(** A change of the memory by thread [t] that takes no mutex, releases at
    most mutexes [t] owns, and leaves the heights of every block alone;
    a block that appears is a new one with equal heights. *)
Definition benign (t : tid) (m m' : memory) : Prop :=
  (next_block m ≤ next_block m')%positive ∧
  ∀ a o', barrier_heap m' !! a = Some o' →
    match barrier_heap m !! a with
    | Some o =>
        nInitialBarrierHeight o' = nInitialBarrierHeight o ∧
        nCurrentBarrierHeight o' = nCurrentBarrierHeight o ∧
        (∀ t0, mtxExclusiveAccess o' = MtxLocked t0 → mtxExclusiveAccess o = MtxLocked t0) ∧
        (∀ t0, t0 ≠ t → mtxExclusiveAccess o = MtxLocked t0 →
               mtxExclusiveAccess o' = MtxLocked t0)
    | None =>
        (next_block m ≤ a)%positive ∧ (a < next_block m')%positive ∧
        nCurrentBarrierHeight o' = nInitialBarrierHeight o' ∧
        ∀ t0, mtxExclusiveAccess o' ≠ MtxLocked t0
    end.

(** ** pthread_barrierattr_getpshared (lines 377-434)

    The [int] that the second parameter points to lives in a store of its
    own, [gmap addr Z]; the call returns its result and the store after
    it.  The condition of line 420 reads [*attr] only when [attr] is not
    null; both branches store through [pshared]. *)

Definition store_int (p : option addr) (v : Z) (ints : gmap addr Z)
    : M (gmap addr Z) :=
  match p with
  | None => fault
  | Some q =>
      match ints !! q with
      | Some _ => ret (<[q := v]> ints)
      | None => fault
      end
  end.

Definition pthread_barrierattr_getpshared (attr : option addr)
    (pshared_out : option addr) (ints : gmap addr Z) : M (Z * gmap addr Z) :=
  let* v :=
    match attr with
    | None => ret None
    | Some p => load_attr_var p
    end in
  match v, pshared_out with
  | Some ba, Some _ =>
      let* ao := load_attr ba in
      let* ints' := store_int pshared_out (pshared ao) ints in
      ret (0, ints')
  | _, _ =>
      let* ints' := store_int pshared_out PTHREAD_PROCESS_PRIVATE ints in
      ret (EINVAL, ints')
  end.

(** ** Sequences of calls on attribute objects *)

Inductive attr_call :=
| Attr_init (attr : option addr)
| Attr_destroy (attr : option addr)
| Attr_setpshared (attr : option addr) (psh : Z).

Definition attr_call_run (posix_thread_process_shared : bool) (e : env)
    (c : attr_call) : M Z :=
  match c with
  | Attr_init attr => pthread_barrierattr_init e attr
  | Attr_destroy attr => pthread_barrierattr_destroy attr
  | Attr_setpshared attr psh =>
      pthread_barrierattr_setpshared posix_thread_process_shared attr psh
  end.

(** The calls of the list one after the other, their results dropped. *)
Fixpoint attr_calls_run (posix_thread_process_shared : bool)
    (cs : list (env * attr_call)) : M unit :=
  match cs with
  | [] => ret tt
  | (e, c) :: rest =>
      let* _ := attr_call_run posix_thread_process_shared e c in
      attr_calls_run posix_thread_process_shared rest
  end.

(** Every attribute object holds a sharing mode the build supports. *)
Definition attrs_supported (posix_thread_process_shared : bool) (m : memory) : Prop :=
  ∀ a o, attr_heap m !! a = Some o →
    pshared o = PTHREAD_PROCESS_PRIVATE ∨
    (posix_thread_process_shared = true ∧ pshared o = PTHREAD_PROCESS_SHARED).

(** ** pthread_barrier_destroy run by itself

    What holds of a thread inside [pthread_barrier_destroy] while no other
    thread takes a turn: [result] is still 0, and at line 176 the handle
    is still the static initialiser. *)
Definition destroy_undisturbed (th : thread) (m : memory) : Prop :=
  match pc th with
  | Returned r => r = 0 ∨ r = EINVAL
  | D_entry | D_test | D_load | D_trylock | D_invalidate | D_sem_destroy
  | D_unlock | D_mutex_destroy | D_free => result th = 0
  | D_static =>
      result th = 0 ∧
      ∃ p, barrier th = Some p ∧ barrier_vars m !! p = Some PTW32_OBJECT_AUTO_INIT
  | _ => False
  end.

(** ** Waiting while owning the mutex

    A thread that is not the last arrival calls [sem_wait] at line 265
    without having released the mutex it took at line 228.
    [heads_for_semaphore]: the statements from which a thread goes on to
    post or destroy the semaphore of the block its [b] points to without
    taking the mutex again. *)

Definition heads_for_semaphore (l : label) : bool :=
  match l with
  | W_decrement | W_reset | W_unlock | W_post | D_invalidate | D_sem_destroy => true
  | _ => false
  end.

(** Thread [t] is in [sem_wait] on the block at [a], which it owns and
    whose semaphore has no count, it cannot be cancelled, and no other
    thread is on its way to the semaphore. *)
Definition held_in_sem_wait (t : tid) (a : addr) (s : system) : Prop :=
  (a < next_block (mem s))%positive ∧
  (∃ th, threads s !! t = Some th ∧ pc th = W_sem_wait ∧ b th = Ptr a ∧
         thr_cancelstate th = PTHREAD_CANCEL_DISABLED) ∧
  (∀ o, barrier_heap (mem s) !! a = Some o →
        mtxExclusiveAccess o = MtxLocked t ∧
        ∃ sm, semBarrierBreeched o = Some sm ∧ sem_value sm ≤ 0) ∧
  (∀ t' th', threads s !! t' = Some th' → b th' = Ptr a →
             heads_for_semaphore (pc th') = false).

(** The turn in which [sem_wait] of thread [t] fails: the thread goes on
    with [errno] in [result], the memory is as it was. *)
Definition sem_wait_fails (t : tid) (s s' : system) : Prop :=
  ∃ e th err,
    threads s !! t = Some th ∧ pc th = W_sem_wait ∧
    sem_wait_errno e = Some err ∧
    s' = {| threads := <[t := set_pc W_cancel_restore (set_result err th)]> (threads s);
            mem := mem s |}.

(** What a turn leaves of the block at [a]: its mutex and its semaphore. *)
Definition block_kept (a : addr) (m m' : memory) : Prop :=
  (next_block m ≤ next_block m')%positive ∧
  ∀ o', barrier_heap m' !! a = Some o' →
    ∃ o, barrier_heap m !! a = Some o ∧
         mtxExclusiveAccess o' = mtxExclusiveAccess o ∧
         semBarrierBreeched o' = semBarrierBreeched o.

(** ** What no turn changes

    [handles_kept]: a barrier variable keeps its value or becomes NULL.
    [heights_kept]: a block keeps its initial height; a block that
    appears is a new one. *)

Definition handles_kept (m m' : memory) : Prop :=
  ∀ p, barrier_vars m' !! p = barrier_vars m !! p ∨
       (barrier_vars m' !! p = Some Null ∧ is_Some (barrier_vars m !! p)).

Definition heights_kept (m m' : memory) : Prop :=
  (next_block m ≤ next_block m')%positive ∧
  ∀ a o', barrier_heap m' !! a = Some o' →
    match barrier_heap m !! a with
    | Some o => nInitialBarrierHeight o' = nInitialBarrierHeight o
    | None => (next_block m ≤ a)%positive
    end.

(** ** The owner of the mutex

    [owns_mutex]: the statements between taking the mutex of the block
    [b] points to (lines 228 and 154) and releasing it (lines 234, 275
    and 166). *)

Definition owns_mutex (l : label) : bool :=
  match l with
  | W_decrement | W_reset | W_unlock | W_cancel_off | W_cleanup_push
  | W_sem_wait | W_cancel_restore | W_cleanup_pop
  | D_invalidate | D_sem_destroy | D_unlock => true
  | _ => false
  end.

Definition owners_hold_lock (s : system) : Prop :=
  ∀ t th a, threads s !! t = Some th → owns_mutex (pc th) = true → b th = Ptr a →
    (a < next_block (mem s))%positive ∧
    ∀ o, barrier_heap (mem s) !! a = Some o → mtxExclusiveAccess o = MtxLocked t.

(** ** Sample inputs *)

Definition env_ok : env :=
  {| calloc_ok := true; mutex_init_result := 0; sem_init_result := 0;
     sem_wait_errno := None; unpassed_count := 1 |}.

Definition env_no_memory : env :=
  {| calloc_ok := false; mutex_init_result := 0; sem_init_result := 0;
     sem_wait_errno := None; unpassed_count := 1 |}.

Definition sample_thread (st : cancel_state) (ty : cancel_type) : thread :=
  {| pc := Idle; thr_cancelstate := st; thr_canceltype := ty;
     cleanup_stack := []; barrier := None; result := 0; b := Null;
     cancelType := PTHREAD_CANCEL_DEFERRED; oldCancelState := None |}.

Definition sample_block (current initial : Z) (mtx : mutex_state) : pthread_barrier_t_ :=
  {| nCurrentBarrierHeight := current; nInitialBarrierHeight := initial;
     mtxExclusiveAccess := mtx;
     semBarrierBreeched := Some {| sem_pshared := PTHREAD_PROCESS_PRIVATE; sem_value := 0 |} |}.

(** One barrier variable at 1 holding [h], one block at 2, one attribute
    variable at 3 pointing to the attribute block at 4. *)
Definition sample_memory (h : pthread_barrier_t) (o : pthread_barrier_t_) : memory :=
  {| barrier_vars := {[ 1%positive := h ]};
     barrier_heap := {[ 2%positive := o ]};
     attr_vars := {[ 3%positive := Some 4%positive ]};
     attr_heap := {[ 4%positive := {| pshared := PTHREAD_PROCESS_PRIVATE |} ]};
     next_block := 5%positive;
     ptw32_barrier_test_init_lock := None |}.

Definition sample_system (h : pthread_barrier_t) (o : pthread_barrier_t_) : system :=
  {| threads := {[ 0%nat := sample_thread PTHREAD_CANCEL_ENABLE PTHREAD_CANCEL_DEFERRED;
                   1%nat := sample_thread PTHREAD_CANCEL_ENABLE PTHREAD_CANCEL_ASYNCHRONOUS ]};
     mem := sample_memory h o |}.

(** The sample system with a barrier of height 1 after thread 0 has entered
    [pthread_barrier_wait] and run five statements: it owns the mutex and
    has just brought the current height to 0. *)
Definition sample_at_reset : system :=
  {| threads :=
       {[ 0%nat :=
            {| pc := W_reset; thr_cancelstate := PTHREAD_CANCEL_ENABLE;
               thr_canceltype := PTHREAD_CANCEL_DEFERRED; cleanup_stack := [];
               barrier := Some 1%positive; result := 0; b := Ptr 2%positive;
               cancelType := PTHREAD_CANCEL_DEFERRED; oldCancelState := None |};
          1%nat := sample_thread PTHREAD_CANCEL_ENABLE PTHREAD_CANCEL_ASYNCHRONOUS ]};
     mem := sample_memory (Ptr 2%positive) (sample_block 0 1 (MtxLocked 0%nat)) |}.

(** An environment in which [sem_wait] is interrupted: it fails with
    [errno] 4. *)
Definition env_interrupted : env :=
  {| calloc_ok := true; mutex_init_result := 0; sem_init_result := 0;
     sem_wait_errno := Some 4; unpassed_count := 1 |}.

(** A block whose semaphore holds [value] counts. *)
Definition sample_block_posted (current initial value : Z) : pthread_barrier_t_ :=
  {| nCurrentBarrierHeight := current; nInitialBarrierHeight := initial;
     mtxExclusiveAccess := MtxUnlocked;
     semBarrierBreeched :=
       Some {| sem_pshared := PTHREAD_PROCESS_PRIVATE; sem_value := value |} |}.

(** The sample system with a barrier of height 2 after thread 0 has entered
    [pthread_barrier_wait] and run seven statements: it owns the mutex, has
    brought the current height to 1 and is about to call [sem_wait]. *)
Definition sample_in_sem_wait : system :=
  {| threads :=
       {[ 0%nat :=
            {| pc := W_sem_wait; thr_cancelstate := PTHREAD_CANCEL_DISABLED;
               thr_canceltype := PTHREAD_CANCEL_DEFERRED;
               cleanup_stack := [2%positive];
               barrier := Some 1%positive; result := 0; b := Ptr 2%positive;
               cancelType := PTHREAD_CANCEL_DEFERRED;
               oldCancelState := Some PTHREAD_CANCEL_ENABLE |};
          1%nat := sample_thread PTHREAD_CANCEL_ENABLE PTHREAD_CANCEL_ASYNCHRONOUS ]};
     mem := sample_memory (Ptr 2%positive) (sample_block 1 2 (MtxLocked 0%nat)) |}.

(** * Properties *)

Ltac unfold_prims :=
  unfold load_handle, block_of in *;
  unfold pthread_mutex_init, pthread_mutex_lock, pthread_mutex_trylock,
    pthread_mutex_unlock, pthread_mutex_destroy, sem_init, sem_destroy,
    sem_post_multiple, sem_wait, EnterCriticalSection, LeaveCriticalSection,
    calloc_barrier, calloc_attr, free_barrier, free_attr,
    load_barrier, store_barrier, load_attr, store_attr,
    load_barrier_var, store_barrier_var, load_attr_var, store_attr_var in *.

Ltac unfold_M := unfold bind, ret, fault, get, modify in *.

Ltac crunch :=
  repeat (simpl in *; unfold_M; simplify_eq;
          try rewrite lookup_insert_eq in *;
          try (case_match; simplify_eq); try (case_decide; simplify_eq)).

(** ** Construction *)

(** C2.  A fully successful [pthread_barrier_init] is specified to store
    the handle of the new barrier in the caller's variable.  The code does
    not: whenever the call returns 0 it has built the block (both heights
    [count], the mutex unlocked, the semaphore at 0) at a new address and
    has left every barrier variable, the caller's included, as it was. *)
Theorem pthread_barrier_init_leaves_handle e p attr count m m' :
  pthread_barrier_init e (Some p) attr count m = Done (0, m') →
  barrier_vars m' = barrier_vars m ∧
  ∃ psh, barrier_heap m' !! next_block m =
    Some {| nCurrentBarrierHeight := count; nInitialBarrierHeight := count;
            mtxExclusiveAccess := MtxUnlocked;
            semBarrierBreeched := Some {| sem_pshared := psh; sem_value := 0 |} |}.
Proof.
  unfold pthread_barrier_init. unfold_prims. intros H.
  crunch; try lia; split; try reflexivity; eexists; reflexivity.
Qed.

Lemma pthread_barrier_init_leaves_handle_witness :
  ∃ m', pthread_barrier_init env_ok (Some 1%positive) None 3
          (sample_memory Null (sample_block 0 0 MtxNull)) = Done (0, m') ∧
        barrier_vars m' = {[ 1%positive := Null ]} ∧
        ∃ psh, barrier_heap m' !! 5%positive =
          Some {| nCurrentBarrierHeight := 3; nInitialBarrierHeight := 3;
                  mtxExclusiveAccess := MtxUnlocked;
                  semBarrierBreeched := Some {| sem_pshared := psh; sem_value := 0 |} |}.
Proof.
  eexists. split; [vm_compute; reflexivity|].
  apply (pthread_barrier_init_leaves_handle env_ok 1%positive None 3
           (sample_memory Null (sample_block 0 0 MtxNull))).
  vm_compute; reflexivity.
Defined.

(** C4, as amended.  With a null [barrier] argument [pthread_barrier_init]
    returns [EINVAL] and leaves the memory as it was: nothing is allocated
    and no mutex or semaphore is made.  (The code has no test of [count].) *)
Theorem pthread_barrier_init_null_slot e attr count m :
  pthread_barrier_init e None attr count m = Done (EINVAL, m).
Proof. reflexivity. Qed.

(** C4 as stated fails for [count = 0]: with a valid variable and every
    collaborator succeeding the call returns 0, not [EINVAL], and has built
    a block whose heights are both 0. *)
Lemma pthread_barrier_init_zero_count :
  (∀ m', pthread_barrier_init env_ok (Some 1%positive) None 0
           (sample_memory Null (sample_block 0 0 MtxNull)) ≠ Done (EINVAL, m')) ∧
  ∃ m', pthread_barrier_init env_ok (Some 1%positive) None 0
          (sample_memory Null (sample_block 0 0 MtxNull)) = Done (0, m') ∧
        barrier_heap m' !! 5%positive = Some (sample_block 0 0 MtxUnlocked).
Proof.
  split.
  - intros m' H. vm_compute in H. discriminate H.
  - eexists. split; vm_compute; reflexivity.
Qed.

(** ** Lazy initialisation *)

Lemma set_guard_release t m :
  ptw32_barrier_test_init_lock m = None →
  set_guard None (set_guard (Some t) m) = m.
Proof. destruct m; simpl; intros ->; reflexivity. Qed.

(** C5.  The helper is specified to call [pthread_barrier_init] with the
    statically declared count.  The code passes no count: line 68 calls
    the function of three parameters with two arguments, and the block
    is built with whatever the callee finds in [count].

    What the helper does.  It waits while the critical section is owned.
    Entered with the critical section free, it takes it and then: for a
    handle that is still the static initialiser it calls
    [pthread_barrier_init] on the variable with no attributes and returns
    what that call returns; for a null handle it returns [EINVAL]; for
    any other handle it returns 0.  In the last two cases the memory, the
    handle included, is as before; in all cases the critical section is
    free again on return.  When the construction succeeds the new block
    has both heights at [unpassed_count], which nothing the caller
    declares decides, and the barrier variables are as before. *)
Theorem ptw32_barrier_check_need_init_cases e t p v m :
  barrier_vars m !! p = Some v →
  (∀ t', ptw32_barrier_test_init_lock m = Some t' →
         ptw32_barrier_check_need_init e t p m = Blocked) ∧
  (ptw32_barrier_test_init_lock m = None →
   ptw32_barrier_check_need_init e t p m =
     match v with
     | PTW32_OBJECT_AUTO_INIT =>
         match pthread_barrier_init e (Some p) None (unpassed_count e)
                 (set_guard (Some t) m) with
         | Done (r, m') => Done (r, set_guard None m')
         | Fault => Fault
         | Blocked => Blocked
         end
     | Null => Done (EINVAL, m)
     | Ptr _ => Done (0, m)
     end) ∧
  (ptw32_barrier_test_init_lock m = None →
   v = PTW32_OBJECT_AUTO_INIT →
   calloc_ok e = true → mutex_init_result e = 0 → sem_init_result e = 0 →
   ∃ m', ptw32_barrier_check_need_init e t p m = Done (0, m') ∧
         barrier_heap m' =
           <[next_block m :=
               {| nCurrentBarrierHeight := unpassed_count e;
                  nInitialBarrierHeight := unpassed_count e;
                  mtxExclusiveAccess := MtxUnlocked;
                  semBarrierBreeched :=
                    Some {| sem_pshared := PTHREAD_PROCESS_PRIVATE; sem_value := 0 |} |}]>
             (barrier_heap m) ∧
         barrier_vars m' = barrier_vars m ∧
         ptw32_barrier_test_init_lock m' = None).
Proof.
  intros Hv. split; [|split].
  - intros t' Hheld.
    unfold ptw32_barrier_check_need_init, EnterCriticalSection, bind.
    rewrite Hheld. reflexivity.
  - intros Hfree.
    unfold ptw32_barrier_check_need_init, EnterCriticalSection, LeaveCriticalSection,
      load_barrier_var, bind, modify, ret.
    rewrite Hfree. simpl. rewrite Hv.
    destruct v; simpl; rewrite ?set_guard_release by assumption; reflexivity.
  - intros Hfree -> Hc Hmi Hsi.
    unfold ptw32_barrier_check_need_init, pthread_barrier_init, calloc_barrier.
    unfold_prims. unfold_M. rewrite Hfree, Hc. simpl. rewrite Hv. simpl.
    rewrite Hmi, Hsi. simpl.
    repeat (rewrite lookup_insert_eq; simpl).
    eexists. split; [reflexivity|]. simpl.
    rewrite !insert_insert_eq. repeat split.
Qed.

Lemma ptw32_barrier_check_need_init_cases_witness :
  ∃ m', ptw32_barrier_check_need_init
          {| calloc_ok := true; mutex_init_result := 0; sem_init_result := 0;
             sem_wait_errno := None; unpassed_count := 0 |}
          0%nat 1%positive
          (sample_memory PTW32_OBJECT_AUTO_INIT (sample_block 2 2 MtxUnlocked))
          = Done (0, m') ∧
        barrier_heap m' !! 5%positive = Some (sample_block 0 0 MtxUnlocked) ∧
        barrier_vars m' !! 1%positive = Some PTW32_OBJECT_AUTO_INIT ∧
        ptw32_barrier_test_init_lock m' = None.
Proof.
  destruct (ptw32_barrier_check_need_init_cases
              {| calloc_ok := true; mutex_init_result := 0; sem_init_result := 0;
                 sem_wait_errno := None; unpassed_count := 0 |}
              0%nat 1%positive PTW32_OBJECT_AUTO_INIT
              (sample_memory PTW32_OBJECT_AUTO_INIT (sample_block 2 2 MtxUnlocked))
              eq_refl) as (_ & _ & Hbuilt).
  destruct (Hbuilt eq_refl eq_refl eq_refl eq_refl eq_refl)
    as (m' & Hrun & Hheap & Hvars & Hlock).
  exists m'. split; [exact Hrun|]. split; [|split; [|exact Hlock]].
  - rewrite Hheap. apply lookup_insert_eq.
  - rewrite Hvars. reflexivity.
Defined.

(** ** Attributes *)

(** C9.  On a failed allocation [pthread_barrierattr_init] is specified,
    and documented in its header comment, to return [ENOMEM] without
    touching the absent object.  The code sets [result = ENOMEM] and then
    stores through the null [ba] (line 320): the call faults instead of
    returning. *)
Theorem pthread_barrierattr_init_no_memory e attr m :
  calloc_ok e = false →
  pthread_barrierattr_init e attr m = Fault.
Proof.
  intros H. unfold pthread_barrierattr_init, calloc_attr, bind, ret, fault.
  rewrite H. reflexivity.
Qed.

Lemma pthread_barrierattr_init_no_memory_witness :
  calloc_ok env_no_memory = false ∧
  pthread_barrierattr_init env_no_memory (Some 3%positive)
    (sample_memory Null (sample_block 2 2 MtxUnlocked)) = Fault.
Proof.
  split; [reflexivity|].
  apply pthread_barrierattr_init_no_memory. reflexivity.
Defined.

(** When the allocation succeeds the new attribute block holds
    [PTHREAD_PROCESS_PRIVATE], the variable points to it and 0 is returned. *)
Lemma pthread_barrierattr_init_success e p v m :
  calloc_ok e = true →
  attr_vars m !! p = Some v →
  ∃ m', pthread_barrierattr_init e (Some p) m = Done (0, m') ∧
        attr_vars m' !! p = Some (Some (next_block m)) ∧
        attr_heap m' !! next_block m = Some {| pshared := PTHREAD_PROCESS_PRIVATE |}.
Proof.
  intros H Hv. unfold pthread_barrierattr_init, calloc_attr. unfold_prims. unfold_M.
  rewrite H. simpl. rewrite lookup_insert_eq. simpl. rewrite Hv.
  eexists. split; [reflexivity|]. simpl. rewrite !lookup_insert_eq. done.
Qed.

(** C8.  Built without [_POSIX_THREAD_PROCESS_SHARED], a request for
    [PTHREAD_PROCESS_SHARED] on a valid attributes handle returns
    [ENOSYS] and leaves [PTHREAD_PROCESS_PRIVATE] in the object. *)
Theorem pthread_barrierattr_setpshared_unsupported p ba ao m :
  attr_vars m !! p = Some (Some ba) →
  attr_heap m !! ba = Some ao →
  ∃ m', pthread_barrierattr_setpshared false (Some p) PTHREAD_PROCESS_SHARED m
          = Done (ENOSYS, m') ∧
        attr_heap m' !! ba = Some {| pshared := PTHREAD_PROCESS_PRIVATE |} ∧
        attr_vars m' = attr_vars m.
Proof.
  intros Hv Ho. unfold pthread_barrierattr_setpshared. unfold_prims. unfold_M.
  rewrite Hv. simpl. rewrite Ho.
  eexists. split; [reflexivity|]. simpl. rewrite lookup_insert_eq. done.
Qed.

Lemma pthread_barrierattr_setpshared_unsupported_witness :
  ∃ m', pthread_barrierattr_setpshared false (Some 3%positive) PTHREAD_PROCESS_SHARED
          (sample_memory Null (sample_block 2 2 MtxUnlocked)) = Done (ENOSYS, m') ∧
        attr_heap m' !! 4%positive = Some {| pshared := PTHREAD_PROCESS_PRIVATE |} ∧
        attr_vars m' = {[ 3%positive := Some 4%positive ]}.
Proof.
  apply (pthread_barrierattr_setpshared_unsupported 3%positive 4%positive
           {| pshared := PTHREAD_PROCESS_PRIVATE |}); reflexivity.
Defined.

(** ** Calls run by one thread *)

Lemma run_unfold e n t th m :
  run e (S n) t th m =
    if between_calls (pc th) then Done (th, m)
    else match thread_step e t th m with
         | Done (th', m') => run e n t th' m'
         | Fault => Fault
         | Blocked => Blocked
         end.
Proof.
  simpl. destruct (between_calls (pc th)); [reflexivity|].
  unfold bind. destruct (thread_step e t th m) as [[th' m']| |]; reflexivity.
Qed.

Lemma run_returned e n t th m :
  between_calls (pc th) = true → run e n t th m = Done (th, m).
Proof. intros H. destruct n; simpl; [|rewrite H]; reflexivity. Qed.

#[local] Arguments run : simpl never.

(** One statement of a call whose memory accesses are decided by the
    hypotheses named in [rewrite_known]. *)
Ltac run_one rewrite_known :=
  rewrite run_unfold; simpl; unfold thread_step, wait_step, destroy_step; simpl;
  unfold PTW32_OBJECT_INVALID, PTHREAD_OBJECT_AUTO_INIT;
  unfold_prims; unfold_M; simpl;
  repeat progress
    (rewrite_known; rewrite ?lookup_insert_eq;
     try match goal with
         | |- context [decide (?x = ?x)] =>
             rewrite (decide_True (P := x = x)) by reflexivity
         end;
     simpl).

Lemma set_barrier_heap_twice f g m :
  set_barrier_heap f (set_barrier_heap g m) = set_barrier_heap (f ∘ g) m.
Proof. reflexivity. Qed.

(** C6.  With a null argument, or a variable holding the invalid (null)
    handle, [pthread_barrier_wait] returns [EINVAL] at its first statement:
    the call is not blocked, the memory is unchanged (no mutex taken, no
    height or semaphore touched), and of the thread only the parameter and
    the program point differ. *)
Theorem pthread_barrier_wait_invalid_handle e n t th barrier m :
  (barrier = None ∨
   ∃ p, barrier = Some p ∧ barrier_vars m !! p = Some PTW32_OBJECT_INVALID) →
  pthread_barrier_wait e (S n) t th barrier m =
    Done (set_pc (Returned EINVAL) (set_barrier barrier th), m).
Proof.
  intros [-> | (p & -> & Hp)]; unfold pthread_barrier_wait.
  - run_one idtac. apply run_returned. reflexivity.
  - run_one ltac:(rewrite ?Hp). apply run_returned. reflexivity.
Qed.

Lemma pthread_barrier_wait_invalid_handle_witness :
  pthread_barrier_wait env_ok 1 0%nat
    (sample_thread PTHREAD_CANCEL_ENABLE PTHREAD_CANCEL_DEFERRED) (Some 1%positive)
    (sample_memory Null (sample_block 2 2 MtxUnlocked)) =
  Done (set_pc (Returned EINVAL)
          (set_barrier (Some 1%positive)
             (sample_thread PTHREAD_CANCEL_ENABLE PTHREAD_CANCEL_DEFERRED)),
        sample_memory Null (sample_block 2 2 MtxUnlocked)).
Proof.
  apply pthread_barrier_wait_invalid_handle.
  right. exists 1%positive. split; reflexivity.
Defined.




(** What the missing store of C2 does to a statically initialised
    barrier: the lazy initialisation succeeds and leaves the handle at the
    static initialiser, which line 228 then dereferences. *)
Lemma pthread_barrier_wait_static_faults :
  pthread_barrier_wait env_ok 4 0%nat
    (sample_thread PTHREAD_CANCEL_ENABLE PTHREAD_CANCEL_DEFERRED) (Some 1%positive)
    (sample_memory PTW32_OBJECT_AUTO_INIT (sample_block 2 2 MtxUnlocked)) = Fault.
Proof. vm_compute. reflexivity. Qed.

(** ** Destruction *)

(** C10.  [pthread_barrier_destroy] on a handle that points to a live
    block whose mutex is held returns 0 after its fourth statement, and
    the memory is exactly as before: the handle, the heights, the mutex
    and the semaphore are untouched and nothing is freed. *)
Theorem pthread_barrier_destroy_busy e n t th p a o t' m :
  barrier_vars m !! p = Some (Ptr a) →
  barrier_heap m !! a = Some o →
  mtxExclusiveAccess o = MtxLocked t' →
  ∃ th', pthread_barrier_destroy e (4 + n) t th (Some p) m = Done (th', m) ∧
         pc th' = Returned 0.
Proof.
  intros Hp Ha Hm. unfold pthread_barrier_destroy.
  change (4 + n)%nat with (S (S (S (S n)))).
  do 4 run_one ltac:(rewrite ?Hp, ?Ha, ?Hm).
  eexists. split; [apply run_returned|]; reflexivity.
Qed.

Lemma pthread_barrier_destroy_busy_witness :
  ∃ th', pthread_barrier_destroy env_ok 4 0%nat
           (sample_thread PTHREAD_CANCEL_ENABLE PTHREAD_CANCEL_DEFERRED) (Some 1%positive)
           (sample_memory (Ptr 2%positive) (sample_block 2 3 (MtxLocked 1%nat)))
         = Done (th', sample_memory (Ptr 2%positive) (sample_block 2 3 (MtxLocked 1%nat))) ∧
         pc th' = Returned 0.
Proof.
  apply (pthread_barrier_destroy_busy env_ok 0 0%nat _ 1%positive 2%positive
           (sample_block 2 3 (MtxLocked 1%nat)) 1%nat); reflexivity.
Defined.

(** ** Cancellation around the blocking wait *)

(** Apart from [result] and the program point, [sem_wait] at line 265
    leaves the thread as it was. *)
Lemma sem_wait_statement_thread e t th m th' m' :
  pc th = W_sem_wait →
  thread_step e t th m = Done (th', m') →
  pc th' = W_cancel_restore ∧
  thr_cancelstate th' = thr_cancelstate th ∧
  thr_canceltype th' = thr_canceltype th ∧
  cleanup_stack th' = cleanup_stack th ∧
  cancelType th' = cancelType th ∧
  oldCancelState th' = oldCancelState th.
Proof.
  intros Hpc H. unfold thread_step, wait_step in H. rewrite Hpc in H. simpl in H.
  unfold_prims. unfold_M. repeat (case_match; simplify_eq); done.
Qed.

(** C7, as amended.  A thread that is not the last arrival (it owns the
    mutex and its decrement at line 231 gives a height other than 0)
    reaches [sem_wait] in three statements that change nothing in memory
    but the current height.  There the mutex-unlock handler for its block
    is on its cleanup stack, its cancellation type is unchanged, and its
    cancellation state is [PTHREAD_CANCEL_DISABLED] if the type is deferred
    and unchanged otherwise.  Whenever [sem_wait] then returns, the next
    statement leaves the memory alone and puts the cancellation state back
    to what it was before the call. *)
Theorem pthread_barrier_wait_cancel_state e t th a o m :
  pc th = W_decrement →
  b th = Ptr a →
  barrier_heap m !! a = Some o →
  wrap_int (nCurrentBarrierHeight o - 1) ≠ 0 →
  ∃ th2,
    run e 3 t th m =
      Done (th2,
            set_barrier_heap
              (insert a (with_current (wrap_int (nCurrentBarrierHeight o - 1)) o)) m) ∧
    pc th2 = W_sem_wait ∧
    cleanup_stack th2 = a :: cleanup_stack th ∧
    thr_canceltype th2 = thr_canceltype th ∧
    thr_cancelstate th2 =
      (if decide (thr_canceltype th = PTHREAD_CANCEL_DEFERRED)
       then PTHREAD_CANCEL_DISABLED else thr_cancelstate th) ∧
    ∀ e' m2 th3 m3,
      thread_step e' t th2 m2 = Done (th3, m3) →
      ∃ th4, thread_step e' t th3 m3 = Done (th4, m3) ∧
             pc th4 = W_cleanup_pop ∧
             thr_canceltype th4 = thr_canceltype th ∧
             thr_cancelstate th4 = thr_cancelstate th.
Proof.
  intros Hpc Hb Ha Hnz. destruct th as [l st ty stack bar res b0 lty old].
  simpl in Hpc, Hb. subst l b0.
  run_one ltac:(rewrite ?Ha).
  destruct (decide (0 = wrap_int (nCurrentBarrierHeight o - 1))) as [Heq|_];
    [congruence|].
  destruct ty; (eexists; split; [reflexivity|]);
    (repeat split; try reflexivity);
    intros e' m2 th3 m3 H;
    apply sem_wait_statement_thread in H as (Hpc & Hst & Hty & _ & Hlty & Hold);
    try reflexivity; simpl in Hst, Hty, Hlty, Hold;
    unfold thread_step, wait_step; rewrite Hpc; simpl; rewrite Hlty, ?Hold; simpl;
    (eexists; split; [reflexivity|]); simpl; auto.
Qed.

Lemma pthread_barrier_wait_cancel_state_witness :
  ∃ th2,
    run env_ok 3 0%nat
      (set_pc W_decrement
         (set_b (Ptr 2%positive)
            (sample_thread PTHREAD_CANCEL_ENABLE PTHREAD_CANCEL_DEFERRED)))
      (sample_memory (Ptr 2%positive) (sample_block 2 2 (MtxLocked 0%nat)))
      = Done (th2, sample_memory (Ptr 2%positive) (sample_block 1 2 (MtxLocked 0%nat))) ∧
    pc th2 = W_sem_wait ∧
    thr_cancelstate th2 = PTHREAD_CANCEL_DISABLED.
Proof.
  destruct (pthread_barrier_wait_cancel_state env_ok 0%nat
              (set_pc W_decrement
                 (set_b (Ptr 2%positive)
                    (sample_thread PTHREAD_CANCEL_ENABLE PTHREAD_CANCEL_DEFERRED)))
              2%positive (sample_block 2 2 (MtxLocked 0%nat))
              (sample_memory (Ptr 2%positive) (sample_block 2 2 (MtxLocked 0%nat)))
              eq_refl eq_refl eq_refl ltac:(vm_compute; discriminate))
    as (th2 & Hrun & Hpc & _ & _ & Hst & _).
  exists th2. split; [|split; [exact Hpc|exact Hst]].
  rewrite Hrun. vm_compute. reflexivity.
Defined.

(** C7 as stated fails: a thread whose cancellation type is asynchronous
    and whose cancellation state is enabled arrives second-to-last at a
    barrier of height 2, and after seven statements it is blocked in
    [sem_wait] (the semaphore is at 0) with both settings unchanged. *)
Lemma pthread_barrier_wait_asynchronous_blocked :
  ∃ th' m',
    pthread_barrier_wait env_ok 7 1%nat
      (sample_thread PTHREAD_CANCEL_ENABLE PTHREAD_CANCEL_ASYNCHRONOUS) (Some 1%positive)
      (sample_memory (Ptr 2%positive) (sample_block 2 2 MtxUnlocked)) = Done (th', m') ∧
    pc th' = W_sem_wait ∧
    thr_canceltype th' = PTHREAD_CANCEL_ASYNCHRONOUS ∧
    thr_cancelstate th' = PTHREAD_CANCEL_ENABLE ∧
    thread_step env_ok 1%nat th' m' = Blocked.
Proof.
  do 2 eexists. split; [vm_compute; reflexivity|].
  repeat split; vm_compute; reflexivity.
Qed.

(** ** The heights under interleaving *)

(** *** Benign changes of the memory *)

Lemma benign_same_heap t m m' :
  barrier_heap m' = barrier_heap m →
  (next_block m ≤ next_block m')%positive →
  benign t m m'.
Proof.
  intros Hh Hn. split; [exact Hn|].
  intros a o' H. rewrite Hh in H. rewrite H. auto.
Qed.

Lemma benign_heap_insert t m a o o' :
  barrier_heap m !! a = Some o →
  nInitialBarrierHeight o' = nInitialBarrierHeight o →
  nCurrentBarrierHeight o' = nCurrentBarrierHeight o →
  (∀ t0, mtxExclusiveAccess o' = MtxLocked t0 → mtxExclusiveAccess o = MtxLocked t0) →
  (∀ t0, t0 ≠ t → mtxExclusiveAccess o = MtxLocked t0 →
         mtxExclusiveAccess o' = MtxLocked t0) →
  benign t m (set_barrier_heap (insert a o') m).
Proof.
  intros Ha Hi Hc Hacq Hkeep. split; [reflexivity|]. simpl.
  intros a0 o0 H. apply lookup_insert_Some in H as [[<- <-]|[Hne H]].
  - rewrite Ha. auto.
  - rewrite H. auto.
Qed.

Lemma benign_heap_delete t m a :
  benign t m (set_barrier_heap (delete a) m).
Proof.
  split; [reflexivity|]. simpl.
  intros a0 o0 H. apply lookup_delete_Some in H as [_ H]. rewrite H. auto.
Qed.

Lemma benign_blocks_allocated t m m' :
  blocks_allocated m → benign t m m' → blocks_allocated m'.
Proof.
  intros Hall [Hnext Hb] a o' Ha. specialize (Hb a o' Ha).
  destruct (barrier_heap m !! a) as [o|] eqn:Hold.
  - specialize (Hall a o Hold). lia.
  - tauto.
Qed.

Lemma benign_trans t m m1 m2 :
  blocks_allocated m → benign t m m1 → benign t m1 m2 → benign t m m2.
Proof.
  intros Hall [Hn1 Hb1] [Hn2 Hb2]. split; [lia|].
  intros a o2 Ha2. specialize (Hb2 a o2 Ha2).
  destruct (barrier_heap m1 !! a) as [o1|] eqn:Ha1.
  - specialize (Hb1 a o1 Ha1). destruct Hb2 as (Hi2 & Hc2 & Hacq2 & Hkeep2).
    destruct (barrier_heap m !! a) as [o|] eqn:Ha.
    + destruct Hb1 as (Hi1 & Hc1 & Hacq1 & Hkeep1).
      repeat split; try congruence; auto.
    + destruct Hb1 as (Hlo & Hhi & Heq & Hfree).
      repeat split; try lia; try congruence.
      intros t0 Hl. apply (Hfree t0). auto.
  - destruct Hb2 as (Hlo & Hhi & Heq & Hfree).
    destruct (barrier_heap m !! a) as [o|] eqn:Ha.
    + specialize (Hall a o Ha). lia.
    + repeat split; try lia; auto.
Qed.

Ltac solve_benign :=
  first
    [ apply benign_same_heap; simpl; [reflexivity|lia]
    | apply benign_heap_delete
    | eapply benign_heap_insert; eauto; simpl; congruence ].

(** *** What the collaborators and the straight-line functions change *)

Lemma fresh_block_unused m :
  blocks_allocated m → barrier_heap m !! next_block m = None.
Proof.
  intros Hall. destruct (barrier_heap m !! next_block m) as [o|] eqn:H; [|reflexivity].
  specialize (Hall _ _ H). lia.
Qed.

(** [pthread_barrier_init] leaves the blocks alone, or adds one block with
    both heights [count] and an unlocked mutex at the next address. *)
Lemma pthread_barrier_init_heap e barrier attr count m r m' :
  blocks_allocated m →
  pthread_barrier_init e barrier attr count m = Done (r, m') →
  (next_block m ≤ next_block m')%positive ∧
  (barrier_heap m' = barrier_heap m ∨
   next_block m' = Pos.succ (next_block m) ∧
   ∃ psh, barrier_heap m' =
     <[next_block m :=
         {| nCurrentBarrierHeight := count; nInitialBarrierHeight := count;
            mtxExclusiveAccess := MtxUnlocked;
            semBarrierBreeched := Some {| sem_pshared := psh; sem_value := 0 |} |}]>
       (barrier_heap m)).
Proof.
  intros Hall H. pose proof (fresh_block_unused m Hall) as Hfresh.
  unfold pthread_barrier_init in H. unfold_prims.
  crunch; (split; [lia|]);
    rewrite ?insert_insert_eq, ?delete_insert_eq, ?delete_id by assumption;
    first [left; reflexivity | right; split; [reflexivity|eexists; reflexivity]].
Qed.

Lemma pthread_barrier_init_benign t e barrier attr count m r m' :
  blocks_allocated m →
  pthread_barrier_init e barrier attr count m = Done (r, m') →
  benign t m m'.
Proof.
  intros Hall H. pose proof (fresh_block_unused m Hall) as Hfresh.
  destruct (pthread_barrier_init_heap _ _ _ _ _ _ _ Hall H)
    as [Hn [Hh|[Hs [psh Hh]]]].
  - apply benign_same_heap; assumption.
  - split; [exact Hn|]. intros a o' Ha. rewrite Hh in Ha.
    apply lookup_insert_Some in Ha as [[<- <-]|[Hne Ha]].
    + rewrite Hfresh. simpl. repeat split; try lia. discriminate.
    + rewrite Ha. auto.
Qed.

Lemma ptw32_barrier_check_need_init_benign e t p m r m' :
  blocks_allocated m →
  ptw32_barrier_check_need_init e t p m = Done (r, m') → benign t m m'.
Proof.
  intros Hall H. unfold ptw32_barrier_check_need_init in H.
  unfold EnterCriticalSection, LeaveCriticalSection, load_barrier_var in H.
  unfold_M. repeat (case_match; simplify_eq); try solve_benign.
  match goal with
  | Hi : pthread_barrier_init _ _ _ _ _ = _ |- _ =>
      apply (pthread_barrier_init_benign t) in Hi; [|exact Hall];
      destruct Hi as [Hn Hb]; split; [exact Hn|exact Hb]
  end.
Qed.

Lemma pthread_mutex_unlock_benign t a m r m' :
  pthread_mutex_unlock t a m = Done (r, m') → benign t m m'.
Proof.
  unfold pthread_mutex_unlock. unfold_prims. intros H. crunch; solve_benign.
Qed.

Lemma run_cleanup_benign t handlers m m' :
  blocks_allocated m →
  run_cleanup t handlers m = Done (tt, m') → benign t m m'.
Proof.
  revert m. induction handlers as [|a rest IH]; intros m Hall H; simpl in H.
  - unfold ret in H. simplify_eq. solve_benign.
  - unfold bind in H.
    destruct (pthread_mutex_unlock t a m) as [[r m1]| |] eqn:Hu; try discriminate.
    pose proof (pthread_mutex_unlock_benign _ _ _ _ _ Hu) as Hb1.
    eapply benign_trans; eauto.
    apply IH; [|exact H]. eapply benign_blocks_allocated; eauto.
Qed.

(** Every statement other than the two that take the mutex and the two
    inside the critical region is benign and does not lead into the
    critical region. *)
Lemma thread_step_benign e t th m th' m' :
  blocks_allocated m →
  thread_step e t th m = Done (th', m') →
  pc th ≠ W_lock → pc th ≠ W_decrement → pc th ≠ W_reset → pc th ≠ D_trylock →
  benign t m m' ∧ critical (pc th') = false.
Proof.
  intros Hall H N1 N2 N3 N4.
  destruct th as [l st ty stack bar res b0 lty old]. simpl in N1, N2, N3, N4.
  unfold thread_step, wait_step, destroy_step in H.
  destruct l; simpl in H; try congruence; try discriminate.
  2: { (* W_auto_init *)
    unfold load_handle, load_barrier_var in H. unfold_M. simpl in H.
    repeat (case_match; simplify_eq); simpl;
      (split; [|reflexivity]); try solve_benign;
      eapply ptw32_barrier_check_need_init_benign; eauto. }
  all: unfold_prims; crunch; (split; [|reflexivity]); solve_benign.
Qed.

Lemma wrap_int_small z : INT_MIN ≤ z ≤ INT_MAX → wrap_int z = z.
Proof.
  unfold INT_MIN, INT_MAX, wrap_int. intros H.
  rewrite Z.mod_small by lia. lia.
Qed.

Lemma between_calls_not_critical l : between_calls l = true → critical l = false.
Proof. destruct l; simpl; congruence. Qed.

(** *** One turn of thread [t] preserves the invariant *)

Section Preservation.

Variables (T : gmap tid thread) (m : memory) (t : tid) (th : thread).
Hypothesis Hinv : barrier_invariant {| threads := T; mem := m |}.
Hypothesis Ht : T !! t = Some th.

Lemma benign_preserves th' m' :
  critical (pc th) = false →
  critical (pc th') = false →
  benign t m m' →
  barrier_invariant {| threads := <[t := th']> T; mem := m' |}.
Proof.
  destruct Hinv as (Hall & Hrange & Hcrit). intros Hc Hc' [Hnext Hb].
  split; [|split].
  - eapply benign_blocks_allocated; [exact Hall|split; eassumption].
  - intros a o' Ha Hinit. simpl in *. specialize (Hb a o' Ha).
    destruct (barrier_heap m !! a) as [o|] eqn:Hold.
    + destruct Hb as (Hi & Hcur & Hacq & Hkeep).
      rewrite Hi in Hinit. destruct (Hrange a o Hold Hinit) as [Hr Hz].
      rewrite Hi, Hcur. split; [exact Hr|].
      intros Hzero. destruct (Hz Hzero) as (t0 & th0 & Ht0 & Hpc0 & Hb0 & Hm0).
      simpl in Ht0.
      assert (t0 ≠ t) as Hne.
      { intros ->. rewrite Ht in Ht0. injection Ht0 as <-.
        rewrite Hpc0 in Hc. discriminate. }
      exists t0, th0. rewrite lookup_insert_ne by congruence. auto.
    + destruct Hb as (_ & _ & Heq & _). lia.
  - intros t0 th0 a Ht0 Hcr Hb0. simpl in *.
    apply lookup_insert_Some in Ht0 as [[<- <-]|[Hne Ht0]]; [congruence|].
    destruct (Hcrit t0 th0 a Ht0 Hcr Hb0) as [Hlt Hown]. simpl in *.
    split; [lia|]. intros o' Ha. specialize (Hb a o' Ha).
    destruct (barrier_heap m !! a) as [o|] eqn:Hold.
    + destruct Hb as (_ & _ & _ & Hkeep). apply Hkeep; auto.
    + lia.
Qed.

(** A statement of [t] that rewrites the block at [a], where [t] is not
    about to reset another block: the initial height stays, the mutex
    stays or is taken by [t] from the unlocked state, the new current
    height is in range and 0 only if [t] goes on to the reset, and [t]
    goes on inside the critical region only as owner of the mutex of [a]. *)
Lemma own_block_preserves a o o' th' :
  barrier_heap m !! a = Some o →
  (pc th = W_reset → b th = Ptr a) →
  nInitialBarrierHeight o' = nInitialBarrierHeight o →
  (mtxExclusiveAccess o' = mtxExclusiveAccess o ∨
   mtxExclusiveAccess o = MtxUnlocked) →
  (0 < nInitialBarrierHeight o ≤ INT_MAX →
   0 ≤ nCurrentBarrierHeight o' ≤ nInitialBarrierHeight o ∧
   (nCurrentBarrierHeight o' = 0 → pc th' = W_reset)) →
  (critical (pc th') = true →
   b th' = Ptr a ∧ mtxExclusiveAccess o' = MtxLocked t) →
  barrier_invariant
    {| threads := <[t := th']> T; mem := set_barrier_heap (insert a o') m |}.
Proof.
  destruct Hinv as (Hall & Hrange & Hcrit).
  intros Ha Hreset Hi Hmtx Hcur Hcr'. split; [|split].
  - intros a0 o0 H. simpl in *.
    apply lookup_insert_Some in H as [[<- <-]|[Hne H]]; eauto.
  - intros a0 o0 H Hinit. simpl in *.
    apply lookup_insert_Some in H as [[<- <-]|[Hne H]].
    + rewrite Hi in Hinit |- *. destruct (Hcur Hinit) as [Hr Hz].
      split; [exact Hr|]. intros Hzero. specialize (Hz Hzero).
      destruct Hcr' as [Hb' Hm']; [rewrite Hz; reflexivity|].
      exists t, th'. rewrite lookup_insert_eq. auto.
    + destruct (Hrange a0 o0 H Hinit) as [Hr Hz]. split; [exact Hr|].
      intros Hzero. destruct (Hz Hzero) as (t0 & th0 & Ht0 & Hpc0 & Hb0 & Hm0).
      simpl in Ht0.
      assert (t0 ≠ t) as Hne0.
      { intros ->. rewrite Ht in Ht0. injection Ht0 as <-.
        specialize (Hreset Hpc0). congruence. }
      exists t0, th0. rewrite lookup_insert_ne by congruence. auto.
  - intros t0 th0 a0 Ht0 Hcr Hb0. simpl in *.
    apply lookup_insert_Some in Ht0 as [[<- <-]|[Hne Ht0]].
    + destruct (Hcr' Hcr) as [Hb' Hm']. assert (a0 = a) as -> by congruence.
      split; [eauto|]. intros o0 H. rewrite lookup_insert_eq in H.
      injection H as <-. exact Hm'.
    + destruct (Hcrit t0 th0 a0 Ht0 Hcr Hb0) as [Hlt Hown]. simpl in *.
      split; [exact Hlt|]. intros o0 H.
      apply lookup_insert_Some in H as [[<- <-]|[Hna H]]; [|auto].
      specialize (Hown o Ha). destruct Hmtx as [->| Hm0]; congruence.
Qed.

End Preservation.

Lemma thread_step_preserves T m e t th th' m' :
  barrier_invariant {| threads := T; mem := m |} →
  T !! t = Some th →
  thread_step e t th m = Done (th', m') →
  barrier_invariant {| threads := <[t := th']> T; mem := m' |}.
Proof.
  intros Hinv Ht H. pose proof Hinv as (Hall & Hrange & Hcrit).
  destruct (decide (pc th = W_lock)) as [Hl|N1].
  { (* line 228: the mutex is taken from the unlocked state, or not at all *)
    unfold thread_step, wait_step in H. rewrite Hl in H. simpl in H.
    unfold block_of, pthread_mutex_lock in H. unfold_prims. unfold_M.
    repeat (case_match; simplify_eq); simpl in *.
    all: try (apply (benign_preserves _ _ _ _ Hinv Ht);
              [rewrite Hl; reflexivity|reflexivity|solve_benign]).
    eapply own_block_preserves; eauto; simpl; try (rewrite Hl; discriminate).
    intros Hinit. destruct (Hrange _ _ ltac:(eassumption) Hinit) as [Hr Hz].
    split; [exact Hr|]. intros Hzero.
    destruct (Hz Hzero) as (t0 & th0 & _ & _ & _ & Hm0). congruence. }
  destruct (decide (pc th = D_trylock)) as [Hl|N2].
  { (* line 154 *)
    unfold thread_step, destroy_step in H. rewrite Hl in H. simpl in H.
    unfold block_of, pthread_mutex_trylock in H. unfold_prims. unfold_M.
    repeat (case_match; simplify_eq); simpl in *.
    all: try (apply (benign_preserves _ _ _ _ Hinv Ht);
              [rewrite Hl; reflexivity|reflexivity|solve_benign]).
    eapply own_block_preserves; eauto; simpl;
      try discriminate; try (rewrite Hl; discriminate).
    intros Hinit. destruct (Hrange _ _ ltac:(eassumption) Hinit) as [Hr Hz].
    split; [exact Hr|]. intros Hzero.
    destruct (Hz Hzero) as (t0 & th0 & _ & _ & _ & Hm0). congruence. }
  destruct (decide (pc th = W_decrement)) as [Hl|N3].
  { (* line 231: [t] owns the mutex, so no other thread has left 0 behind *)
    unfold thread_step, wait_step in H. rewrite Hl in H. simpl in H.
    unfold block_of in H. unfold_prims. unfold_M.
    repeat (case_match; simplify_eq); simpl in *.
    all: match goal with
         | Hb : b _ = Ptr ?a, Ha : barrier_heap _ !! ?a = Some ?o |- _ =>
             destruct (Hcrit _ _ a Ht ltac:(rewrite Hl; reflexivity) Hb) as [Hlt Hown];
             specialize (Hown o Ha);
             eapply (own_block_preserves _ _ _ _ Hinv Ht a o); eauto; simpl;
             intros Hinit; destruct (Hrange a o Ha Hinit) as [Hr Hz];
             assert (nCurrentBarrierHeight o ≠ 0) as Hnz
               by (intros Hzero;
                   destruct (Hz Hzero) as (t0 & th0 & Ht0 & Hpc0 & _ & Hm0);
                   simpl in *; assert (t0 = t) as -> by congruence; congruence);
             pose proof (wrap_int_small (nCurrentBarrierHeight o - 1)
                           ltac:(unfold INT_MIN, INT_MAX in *; lia)) as Hw;
             rewrite Hw; split; [lia|intros; first [reflexivity|exfalso; lia]]
         end. }
  destruct (decide (pc th = W_reset)) as [Hl|N4].
  { (* line 233 *)
    unfold thread_step, wait_step in H. rewrite Hl in H. simpl in H.
    unfold block_of in H. unfold_prims. unfold_M.
    repeat (case_match; simplify_eq); simpl in *.
    eapply own_block_preserves; eauto; simpl; try discriminate.
    intros Hinit. split; lia. }
  destruct (thread_step_benign e t th m th' m' Hall H) as [Hb Hc]; try assumption.
  apply (benign_preserves _ _ _ _ Hinv Ht); [|exact Hc|exact Hb].
  destruct (pc th); try reflexivity; congruence.
Qed.

(** *** Every reachable state satisfies the invariant *)

Lemma step_preserves s s' :
  barrier_invariant s → step s s' → barrier_invariant s'.
Proof.
  intros Hinv Hstep. destruct s as [T m].
  destruct Hstep as [t th c Ht Hbc | e t th th' m' Ht H
                    | e t th bar attr count r m' Ht Hbc H | t th m' Ht Hpc Hst H];
    simpl in *.
  - apply (benign_preserves T m t th Hinv Ht);
      [apply between_calls_not_critical, Hbc|destruct c; reflexivity|solve_benign].
  - eapply thread_step_preserves; eauto.
  - rewrite <- (insert_id T t th Ht).
    apply (benign_preserves T m t th Hinv Ht);
      [apply between_calls_not_critical, Hbc|apply between_calls_not_critical, Hbc|].
    eapply pthread_barrier_init_benign; [apply Hinv|exact H].
  - apply (benign_preserves T m t th Hinv Ht);
      [rewrite Hpc; reflexivity|reflexivity|].
    eapply run_cleanup_benign; [apply Hinv|exact H].
Qed.

Lemma initial_invariant s : initial s → barrier_invariant s.
Proof.
  intros [Hidle Hblocks]. split; [|split].
  - intros a o H. apply (Hblocks a o H).
  - intros a o H Hinit. destruct (Hblocks a o H) as [_ Heq]. split; lia.
  - intros t th a Ht Hcr _. rewrite (Hidle t th Ht) in Hcr. discriminate.
Qed.

Lemma reachable_invariant s : reachable s → barrier_invariant s.
Proof.
  intros (s0 & Hinit & Hsteps). apply initial_invariant in Hinit.
  induction Hsteps as [s|s1 s2 s3 Hstep _ IH]; [exact Hinit|].
  apply IH. eapply step_preserves; eauto.
Qed.

(** A call run by one thread is an execution of the system. *)
Lemma run_steps e n t th m th' m' T :
  T !! t = Some th →
  run e n t th m = Done (th', m') →
  rtc step {| threads := T; mem := m |} {| threads := <[t := th']> T; mem := m' |}.
Proof.
  revert th m T. induction n as [|n IH]; intros th m T Ht H.
  - unfold run, ret in H. simplify_eq. rewrite insert_id by assumption. apply rtc_refl.
  - rewrite run_unfold in H. destruct (between_calls (pc th)).
    + simplify_eq. rewrite insert_id by assumption. apply rtc_refl.
    + destruct (thread_step e t th m) as [[th1 m1]| |] eqn:Hs; try discriminate.
      eapply rtc_l.
      * apply (step_statement _ e t th th1 m1); [exact Ht|exact Hs].
      * simpl. specialize (IH th1 m1 (<[t := th1]> T) (lookup_insert_eq _ _ _) H).
        rewrite insert_insert_eq in IH. exact IH.
Qed.

Lemma sample_system_initial h current mtx :
  initial (sample_system h (sample_block current current mtx)).
Proof.
  split.
  - intros t th H. unfold sample_system in H. simpl in H.
    apply lookup_insert_Some in H as [[_ <-]|[_ H]]; [reflexivity|].
    apply lookup_singleton_Some in H as [_ <-]. reflexivity.
  - intros a o H. simpl in H. apply lookup_singleton_Some in H as [<- <-].
    split; [reflexivity|reflexivity].
Qed.

Lemma sample_at_reset_reachable : reachable sample_at_reset.
Proof.
  exists (sample_system (Ptr 2%positive) (sample_block 1 1 MtxUnlocked)).
  split; [apply sample_system_initial|].
  eapply rtc_l.
  { apply (step_enter _ 0%nat
             (sample_thread PTHREAD_CANCEL_ENABLE PTHREAD_CANCEL_DEFERRED)
             (Call_wait (Some 1%positive))); reflexivity. }
  eapply rtc_trans.
  { eapply (run_steps env_ok 5 0%nat); [reflexivity|]. vm_compute. reflexivity. }
  apply rtc_refl.
Qed.

(** C3.  In every state that the threads can reach by calls of
    [pthread_barrier_init], [pthread_barrier_wait] and
    [pthread_barrier_destroy], interleaved statement by statement and with
    cancellations delivered, every live block built with a height [N],
    [0 < N <= INT_MAX], has [0 <= nCurrentBarrierHeight <= N]; when no
    thread owns its mutex the current height is not 0; and when the
    current height is 0 the owner of the mutex is at line 233, where its
    next statement stores the initial height back while it still owns the
    mutex. *)
Theorem heights_invariant s a o :
  reachable s →
  barrier_heap (mem s) !! a = Some o →
  0 < nInitialBarrierHeight o ≤ INT_MAX →
  0 ≤ nCurrentBarrierHeight o ≤ nInitialBarrierHeight o ∧
  ((∀ t, mtxExclusiveAccess o ≠ MtxLocked t) → 0 < nCurrentBarrierHeight o) ∧
  (nCurrentBarrierHeight o = 0 →
   ∃ t th, threads s !! t = Some th ∧ pc th = W_reset ∧ b th = Ptr a ∧
           mtxExclusiveAccess o = MtxLocked t ∧
           ∀ e, thread_step e t th (mem s) =
                  Done (set_pc W_unlock th,
                        set_barrier_heap
                          (insert a (with_current (nInitialBarrierHeight o) o)) (mem s))).
Proof.
  intros Hreach Ha Hinit.
  destruct (reachable_invariant s Hreach) as (_ & Hrange & _).
  destruct (Hrange a o Ha Hinit) as [Hr Hz].
  split; [exact Hr|]. split.
  - intros Hfree.
    destruct (decide (nCurrentBarrierHeight o = 0)) as [Hzero|Hnz]; [|lia].
    destruct (Hz Hzero) as (t & th & _ & _ & _ & Hm). destruct (Hfree t Hm).
  - intros Hzero. destruct (Hz Hzero) as (t & th & Ht & Hpc & Hb & Hm).
    exists t, th. repeat (split; [assumption|]).
    intros e. unfold thread_step, wait_step. rewrite Hpc. simpl.
    unfold block_of. rewrite Hb. unfold_prims. unfold_M.
    repeat (rewrite Ha; simpl). reflexivity.
Qed.

Lemma heights_invariant_witness :
  reachable sample_at_reset ∧
  barrier_heap (mem sample_at_reset) !! 2%positive
    = Some (sample_block 0 1 (MtxLocked 0%nat)) ∧
  0 ≤ 0 ≤ 1 ∧
  ∃ t th, threads sample_at_reset !! t = Some th ∧ pc th = W_reset ∧
          b th = Ptr 2%positive.
Proof.
  split; [exact sample_at_reset_reachable|]. split; [reflexivity|].
  destruct (heights_invariant sample_at_reset 2%positive
              (sample_block 0 1 (MtxLocked 0%nat))
              sample_at_reset_reachable eq_refl)
    as (Hr & _ & Hz).
  { unfold INT_MAX. simpl. lia. }
  split; [exact Hr|].
  destruct (Hz eq_refl) as (t & th & Ht & Hpc & Hb & _).
  exists t, th. auto.
Defined.

(** * Further properties *)

(** ** The attribute functions *)

(** X1.  [pthread_barrierattr_destroy] on a variable that holds an attribute
    object returns 0, sets the variable to NULL and frees the object; the
    barrier variables and blocks are as before.  A second call on the
    same variable returns [EINVAL] and changes nothing. *)
Theorem pthread_barrierattr_destroy_twice p ba ao m :
  attr_vars m !! p = Some (Some ba) →
  attr_heap m !! ba = Some ao →
  ∃ m', pthread_barrierattr_destroy (Some p) m = Done (0, m') ∧
        attr_vars m' !! p = Some None ∧
        attr_heap m' !! ba = None ∧
        barrier_vars m' = barrier_vars m ∧ barrier_heap m' = barrier_heap m ∧
        pthread_barrierattr_destroy (Some p) m' = Done (EINVAL, m').
Proof.
  intros Hv Ho. unfold pthread_barrierattr_destroy. unfold_prims. unfold_M.
  rewrite Hv. simpl. rewrite Hv. simpl. rewrite Ho.
  eexists. split; [reflexivity|]. simpl.
  rewrite lookup_insert_eq, lookup_delete_eq. repeat split; reflexivity.
Qed.

Lemma pthread_barrierattr_destroy_twice_witness :
  ∃ m', pthread_barrierattr_destroy (Some 3%positive)
          (sample_memory Null (sample_block 0 0 MtxNull)) = Done (0, m') ∧
        attr_vars m' !! 3%positive = Some None ∧
        attr_heap m' !! 4%positive = None ∧
        barrier_vars m' = barrier_vars (sample_memory Null (sample_block 0 0 MtxNull)) ∧
        barrier_heap m' = barrier_heap (sample_memory Null (sample_block 0 0 MtxNull)) ∧
        pthread_barrierattr_destroy (Some 3%positive) m' = Done (EINVAL, m').
Proof.
  exact (pthread_barrierattr_destroy_twice 3%positive 4%positive
           {| pshared := PTHREAD_PROCESS_PRIVATE |}
           (sample_memory Null (sample_block 0 0 MtxNull)) eq_refl eq_refl).
Defined.

(** X2.  Round trip.  [pthread_barrierattr_setpshared] with one of the two
    sharing modes on a valid attribute object returns 0, or [ENOSYS] when
    the mode is [PTHREAD_PROCESS_SHARED] and the build does not define
    [_POSIX_THREAD_PROCESS_SHARED].  [pthread_barrierattr_getpshared]
    then returns 0 and stores the mode that was set if the result was 0,
    and [PTHREAD_PROCESS_PRIVATE] if it was [ENOSYS]. *)
Theorem pthread_barrierattr_setpshared_getpshared posix p ba ao q z psh ints m :
  attr_vars m !! p = Some (Some ba) →
  attr_heap m !! ba = Some ao →
  ints !! q = Some z →
  psh = PTHREAD_PROCESS_SHARED ∨ psh = PTHREAD_PROCESS_PRIVATE →
  ∃ r m',
    pthread_barrierattr_setpshared posix (Some p) psh m = Done (r, m') ∧
    (r = 0 ∨ r = ENOSYS ∧ posix = false ∧ psh = PTHREAD_PROCESS_SHARED) ∧
    pthread_barrierattr_getpshared (Some p) (Some q) ints m' =
      Done ((0, <[q := if decide (r = 0) then psh else PTHREAD_PROCESS_PRIVATE]> ints), m').
Proof.
  intros Hv Ho Hq Hpsh.
  unfold pthread_barrierattr_setpshared, pthread_barrierattr_getpshared, store_int.
  unfold_prims. unfold_M. rewrite Hv. simpl.
  rewrite decide_True by assumption.
  destruct (decide (psh = PTHREAD_PROCESS_SHARED)) as [->|Hne]; [destruct posix|];
    simpl; rewrite Ho;
    (do 2 eexists; split; [reflexivity|]); simpl;
    rewrite Hv; simpl; rewrite lookup_insert_eq; simpl; rewrite Hq; simpl; auto.
Qed.

Lemma pthread_barrierattr_setpshared_getpshared_witness :
  ∃ r m',
    pthread_barrierattr_setpshared false (Some 3%positive) PTHREAD_PROCESS_SHARED
      (sample_memory Null (sample_block 0 0 MtxNull)) = Done (r, m') ∧
    (r = 0 ∨ r = ENOSYS ∧ false = false ∧
              PTHREAD_PROCESS_SHARED = PTHREAD_PROCESS_SHARED) ∧
    pthread_barrierattr_getpshared (Some 3%positive) (Some 7%positive)
      {[ 7%positive := 5 ]} m' =
      Done ((0, <[7%positive := if decide (r = 0) then PTHREAD_PROCESS_SHARED
                                else PTHREAD_PROCESS_PRIVATE]> {[ 7%positive := 5 ]}), m').
Proof.
  exact (pthread_barrierattr_setpshared_getpshared false 3%positive 4%positive
           {| pshared := PTHREAD_PROCESS_PRIVATE |} 7%positive 5
           PTHREAD_PROCESS_SHARED {[ 7%positive := 5 ]}
           (sample_memory Null (sample_block 0 0 MtxNull))
           eq_refl eq_refl eq_refl (or_introl eq_refl)).
Defined.

(** X3.  When [calloc] succeeds, [pthread_barrierattr_init] returns 0 and
    [pthread_barrierattr_getpshared] on the new object returns 0 and
    stores [PTHREAD_PROCESS_PRIVATE]. *)
Theorem pthread_barrierattr_init_getpshared e p v q z ints m :
  calloc_ok e = true →
  attr_vars m !! p = Some v →
  ints !! q = Some z →
  ∃ m', pthread_barrierattr_init e (Some p) m = Done (0, m') ∧
        pthread_barrierattr_getpshared (Some p) (Some q) ints m' =
          Done ((0, <[q := PTHREAD_PROCESS_PRIVATE]> ints), m').
Proof.
  intros He Hv Hq.
  unfold pthread_barrierattr_init, pthread_barrierattr_getpshared, store_int, calloc_attr.
  unfold_prims. unfold_M. rewrite He. simpl. rewrite lookup_insert_eq. simpl.
  rewrite Hv. eexists. split; [reflexivity|]. simpl.
  repeat (rewrite ?lookup_insert_eq, ?Hq; simpl). reflexivity.
Qed.

Lemma pthread_barrierattr_init_getpshared_witness :
  ∃ m', pthread_barrierattr_init env_ok (Some 3%positive)
          (sample_memory Null (sample_block 0 0 MtxNull)) = Done (0, m') ∧
        pthread_barrierattr_getpshared (Some 3%positive) (Some 7%positive)
          {[ 7%positive := 5 ]} m' =
          Done ((0, <[7%positive := PTHREAD_PROCESS_PRIVATE]> {[ 7%positive := 5 ]}), m').
Proof.
  exact (pthread_barrierattr_init_getpshared env_ok 3%positive (Some 4%positive)
           7%positive 5 {[ 7%positive := 5 ]}
           (sample_memory Null (sample_block 0 0 MtxNull)) eq_refl eq_refl eq_refl).
Defined.

(** X4.  [pthread_barrierattr_getpshared] with [attr] NULL or [*attr] NULL and
    a valid second parameter returns [EINVAL], and stores
    [PTHREAD_PROCESS_PRIVATE] through the second parameter all the same
    (line 428). *)
Theorem pthread_barrierattr_getpshared_invalid attr q z ints m :
  attr = None ∨ (∃ p, attr = Some p ∧ attr_vars m !! p = Some None) →
  ints !! q = Some z →
  pthread_barrierattr_getpshared attr (Some q) ints m =
    Done ((EINVAL, <[q := PTHREAD_PROCESS_PRIVATE]> ints), m).
Proof.
  intros [->|(p & -> & Hp)] Hq;
    unfold pthread_barrierattr_getpshared, store_int; unfold_prims; unfold_M;
    rewrite ?Hp, Hq; reflexivity.
Qed.

Lemma pthread_barrierattr_getpshared_invalid_witness :
  pthread_barrierattr_getpshared None (Some 7%positive) {[ 7%positive := 5 ]}
    (sample_memory Null (sample_block 0 0 MtxNull)) =
    Done ((EINVAL, <[7%positive := PTHREAD_PROCESS_PRIVATE]> {[ 7%positive := 5 ]}),
          sample_memory Null (sample_block 0 0 MtxNull)).
Proof.
  exact (pthread_barrierattr_getpshared_invalid None 7%positive 5 {[ 7%positive := 5 ]}
           (sample_memory Null (sample_block 0 0 MtxNull)) (or_introl eq_refl) eq_refl).
Defined.

(** X5.  [pthread_barrierattr_getpshared] with a NULL second parameter
    faults, whatever [attr] is: the test of lines 420-421 sends it to the
    branch that stores through the NULL pointer (line 428). *)
Theorem pthread_barrierattr_getpshared_null_out attr ints m :
  pthread_barrierattr_getpshared attr None ints m = Fault.
Proof.
  unfold pthread_barrierattr_getpshared, store_int. unfold_prims. unfold_M.
  destruct attr as [p|]; [|reflexivity].
  destruct (attr_vars m !! p) as [[ba|]|]; reflexivity.
Qed.

(** X6.  [pthread_barrierattr_setpshared] returns [EINVAL] and changes nothing
    when [attr] is NULL, when [*attr] is NULL, or when the mode is neither
    [PTHREAD_PROCESS_SHARED] nor [PTHREAD_PROCESS_PRIVATE]. *)
Theorem pthread_barrierattr_setpshared_invalid posix attr psh m :
  attr = None ∨
  (∃ p, attr = Some p ∧ attr_vars m !! p = Some None) ∨
  (∃ p v, attr = Some p ∧ attr_vars m !! p = Some v ∧
          psh ≠ PTHREAD_PROCESS_SHARED ∧ psh ≠ PTHREAD_PROCESS_PRIVATE) →
  pthread_barrierattr_setpshared posix attr psh m = Done (EINVAL, m).
Proof.
  intros [->|[(p & -> & Hp)|(p & v & -> & Hp & Hs & Hpr)]];
    unfold pthread_barrierattr_setpshared; unfold_prims; unfold_M;
    rewrite ?Hp; try reflexivity.
  destruct v; [|reflexivity]. rewrite decide_False by tauto. reflexivity.
Qed.

Lemma pthread_barrierattr_setpshared_invalid_witness :
  pthread_barrierattr_setpshared true (Some 3%positive) 2
    (sample_memory Null (sample_block 0 0 MtxNull)) =
    Done (EINVAL, sample_memory Null (sample_block 0 0 MtxNull)).
Proof.
  apply pthread_barrierattr_setpshared_invalid.
  right. right. exists 3%positive, (Some 4%positive).
  repeat split; [vm_compute; discriminate|vm_compute; discriminate].
Defined.

Lemma attr_call_run_supported posix e c m r m' :
  attrs_supported posix m →
  attr_call_run posix e c m = Done (r, m') →
  attrs_supported posix m'.
Proof.
  intros Hm H. destruct c as [attr|attr|attr psh]; simpl in H.
  - unfold pthread_barrierattr_init, calloc_attr in H. unfold_prims. unfold_M.
    repeat (case_match; simplify_eq); simpl.
    intros ax ox Ha. simpl in Ha. rewrite insert_insert_eq in Ha.
    apply lookup_insert_Some in Ha as [[_ <-]|[_ Ha]]; [left; reflexivity|eauto].
  - unfold pthread_barrierattr_destroy in H. unfold_prims. unfold_M.
    repeat (case_match; simplify_eq); simpl; try assumption.
    intros ax ox Ha. simpl in Ha. apply lookup_delete_Some in Ha as [_ Ha]. eauto.
  - unfold pthread_barrierattr_setpshared in H. unfold_prims. unfold_M.
    repeat (case_match; simplify_eq); simpl; try assumption.
    all: intros ax ox Ha; simpl in Ha;
      apply lookup_insert_Some in Ha as [[_ <-]|[_ Ha]]; eauto; simpl.
    all: try (left; reflexivity).
    all: try (right; split; reflexivity).
    all: match goal with
         | Hor : _ = PTHREAD_PROCESS_SHARED ∨ _ |- _ =>
             destruct Hor; [congruence|left; assumption]
         end.
Qed.

Lemma sample_memory_attrs_supported posix h o :
  attrs_supported posix (sample_memory h o).
Proof.
  intros a ao H. simpl in H. apply lookup_singleton_Some in H as [_ <-].
  left. reflexivity.
Qed.

(** X7.  Whatever sequence of [pthread_barrierattr_init],
    [pthread_barrierattr_destroy] and [pthread_barrierattr_setpshared]
    calls runs to its end, with whatever arguments: if every attribute
    object held a sharing mode the build supports before, every attribute
    object does afterwards.  In a build without
    [_POSIX_THREAD_PROCESS_SHARED] no object ever holds
    [PTHREAD_PROCESS_SHARED]. *)
Theorem attr_calls_run_supported posix cs m m' :
  attrs_supported posix m →
  attr_calls_run posix cs m = Done (tt, m') →
  attrs_supported posix m'.
Proof.
  revert m. induction cs as [|[e c] rest IH]; intros m Hm H; simpl in H.
  - unfold ret in H. simplify_eq. exact Hm.
  - unfold bind in H.
    destruct (attr_call_run posix e c m) as [[r m1]| |] eqn:Hc; try discriminate.
    eapply IH; [|exact H]. eapply attr_call_run_supported; eauto.
Qed.

Lemma attr_calls_run_supported_witness :
  ∃ m',
    attr_calls_run false
      [(env_ok, Attr_init (Some 3%positive));
       (env_ok, Attr_setpshared (Some 3%positive) PTHREAD_PROCESS_SHARED)]
      (sample_memory Null (sample_block 0 0 MtxNull)) = Done (tt, m') ∧
    attrs_supported false m'.
Proof.
  eexists. split; [vm_compute; reflexivity|].
  eapply (attr_calls_run_supported false
            [(env_ok, Attr_init (Some 3%positive));
             (env_ok, Attr_setpshared (Some 3%positive) PTHREAD_PROCESS_SHARED)]
            (sample_memory Null (sample_block 0 0 MtxNull)));
    [apply sample_memory_attrs_supported|vm_compute; reflexivity].
Defined.

Lemma attr_call_run_frame posix e c m r m' :
  attr_call_run posix e c m = Done (r, m') →
  barrier_vars m' = barrier_vars m ∧ barrier_heap m' = barrier_heap m ∧
  ptw32_barrier_test_init_lock m' = ptw32_barrier_test_init_lock m.
Proof.
  intros H. destruct c as [attr|attr|attr psh]; simpl in H.
  - unfold pthread_barrierattr_init, calloc_attr in H. unfold_prims. unfold_M.
    repeat (case_match; simplify_eq); done.
  - unfold pthread_barrierattr_destroy in H. unfold_prims. unfold_M.
    repeat (case_match; simplify_eq); done.
  - unfold pthread_barrierattr_setpshared in H. unfold_prims. unfold_M.
    repeat (case_match; simplify_eq); done.
Qed.

(** X8.  The three attribute functions that change the memory leave the
    barrier variables, the barrier blocks and
    [ptw32_barrier_test_init_lock] alone, over any sequence of calls. *)
Theorem attr_calls_run_frame posix cs m m' :
  attr_calls_run posix cs m = Done (tt, m') →
  barrier_vars m' = barrier_vars m ∧ barrier_heap m' = barrier_heap m ∧
  ptw32_barrier_test_init_lock m' = ptw32_barrier_test_init_lock m.
Proof.
  revert m. induction cs as [|[e c] rest IH]; intros m H; simpl in H.
  - unfold ret in H. simplify_eq. done.
  - unfold bind in H.
    destruct (attr_call_run posix e c m) as [[r m1]| |] eqn:Hc; try discriminate.
    destruct (attr_call_run_frame _ _ _ _ _ _ Hc) as (Hv & Hh & Hg).
    destruct (IH _ H) as (Hv' & Hh' & Hg'). repeat split; congruence.
Qed.

Lemma attr_calls_run_frame_witness :
  ∃ m',
    attr_calls_run false
      [(env_ok, Attr_init (Some 3%positive));
       (env_ok, Attr_destroy (Some 3%positive))]
      (sample_memory (Ptr 2%positive) (sample_block 2 2 MtxUnlocked)) = Done (tt, m') ∧
    barrier_vars m' =
      barrier_vars (sample_memory (Ptr 2%positive) (sample_block 2 2 MtxUnlocked)) ∧
    barrier_heap m' =
      barrier_heap (sample_memory (Ptr 2%positive) (sample_block 2 2 MtxUnlocked)) ∧
    ptw32_barrier_test_init_lock m' = None.
Proof.
  eexists. split; [vm_compute; reflexivity|].
  eapply (attr_calls_run_frame false
            [(env_ok, Attr_init (Some 3%positive));
             (env_ok, Attr_destroy (Some 3%positive))]).
  vm_compute. reflexivity.
Defined.

(** ** Construction, continued *)

Lemma sample_memory_blocks_allocated h o : blocks_allocated (sample_memory h o).
Proof.
  intros a o' H. simpl in H. apply lookup_singleton_Some in H as [<- _]. reflexivity.
Qed.

(** X9.  The result of [pthread_barrier_init], in a memory whose live
    blocks all lie below the next address [calloc] gives.  For a NULL
    [barrier] the call returns [EINVAL] and changes nothing; for any other
    [barrier], when [calloc] fails it returns [ENOMEM] and changes
    nothing.  Otherwise, whenever it returns, it returns what
    [pthread_mutex_init] returned if that is not 0, and what [sem_init]
    returned if [pthread_mutex_init] returned 0.  A call that returns a
    result other than 0 leaves nothing behind: the blocks (the one it
    allocated is freed again), the barrier variables, the attribute
    objects and the lock are as before. *)
Theorem pthread_barrier_init_failure e barrier attr count m :
  blocks_allocated m →
  (barrier = None →
   pthread_barrier_init e barrier attr count m = Done (EINVAL, m)) ∧
  (barrier ≠ None → calloc_ok e = false →
   pthread_barrier_init e barrier attr count m = Done (ENOMEM, m)) ∧
  (∀ r m',
     pthread_barrier_init e barrier attr count m = Done (r, m') →
     (barrier ≠ None → calloc_ok e = true → mutex_init_result e ≠ 0 →
      r = mutex_init_result e) ∧
     (barrier ≠ None → calloc_ok e = true → mutex_init_result e = 0 →
      r = sem_init_result e) ∧
     (r ≠ 0 →
      barrier_heap m' = barrier_heap m ∧
      barrier_vars m' = barrier_vars m ∧
      attr_vars m' = attr_vars m ∧ attr_heap m' = attr_heap m ∧
      ptw32_barrier_test_init_lock m' = ptw32_barrier_test_init_lock m)).
Proof.
  intros Hall. pose proof (fresh_block_unused m Hall) as Hfresh.
  split; [|split].
  - intros ->. reflexivity.
  - intros Hb Hc. destruct barrier as [p|]; [|congruence].
    unfold pthread_barrier_init, calloc_barrier, free_barrier, bind, ret.
    rewrite Hc. reflexivity.
  - intros r m' H. unfold pthread_barrier_init in H. unfold_prims.
    crunch; try congruence;
      rewrite ?insert_insert_eq, ?delete_insert_eq, ?delete_id by assumption;
      repeat split; intros; try congruence; auto.
Qed.

Lemma pthread_barrier_init_failure_witness :
  pthread_barrier_init env_no_memory (Some 1%positive) None 3
    (sample_memory Null (sample_block 0 0 MtxNull)) =
    Done (ENOMEM, sample_memory Null (sample_block 0 0 MtxNull)) ∧
  ∃ r m',
    pthread_barrier_init
      {| calloc_ok := true; mutex_init_result := 11; sem_init_result := 0;
         sem_wait_errno := None; unpassed_count := 1 |}
      (Some 1%positive) None 3
      (sample_memory Null (sample_block 0 0 MtxNull)) = Done (r, m') ∧
    r = 11 ∧
    barrier_heap m' = barrier_heap (sample_memory Null (sample_block 0 0 MtxNull)).
Proof.
  split.
  - apply (pthread_barrier_init_failure env_no_memory (Some 1%positive) None 3
             (sample_memory Null (sample_block 0 0 MtxNull))
             (sample_memory_blocks_allocated _ _));
      [discriminate|reflexivity].
  - do 2 eexists. split; [vm_compute; reflexivity|].
    destruct (pthread_barrier_init_failure
                {| calloc_ok := true; mutex_init_result := 11; sem_init_result := 0;
                   sem_wait_errno := None; unpassed_count := 1 |}
                (Some 1%positive) None 3
                (sample_memory Null (sample_block 0 0 MtxNull))
                (sample_memory_blocks_allocated _ _)) as (_ & _ & Hret).
    edestruct Hret as (Hmutex & _ & Hclean); [vm_compute; reflexivity|].
    split.
    + apply Hmutex; [discriminate|reflexivity|discriminate].
    + apply Hclean. discriminate.
Defined.

(** X10.  A successful [pthread_barrier_init] creates the semaphore with count
    0 and with the sharing mode of the attribute object, and with
    [PTHREAD_PROCESS_PRIVATE] when [attr] or [*attr] is NULL
    (lines 108-111 and 121). *)
Theorem pthread_barrier_init_pshared e p attr count m m' :
  pthread_barrier_init e (Some p) attr count m = Done (0, m') →
  ∃ o psh,
    barrier_heap m' !! next_block m = Some o ∧
    semBarrierBreeched o = Some {| sem_pshared := psh; sem_value := 0 |} ∧
    (attr = None → psh = PTHREAD_PROCESS_PRIVATE) ∧
    (∀ pa, attr = Some pa → attr_vars m !! pa = Some None →
           psh = PTHREAD_PROCESS_PRIVATE) ∧
    (∀ pa oa ao, attr = Some pa → attr_vars m !! pa = Some (Some oa) →
                 attr_heap m !! oa = Some ao → psh = pshared ao).
Proof.
  unfold pthread_barrier_init. unfold_prims. intros H.
  crunch; try lia; (do 2 eexists; split; [reflexivity|]); simpl;
    (split; [reflexivity|]); repeat split; intros; simplify_eq; congruence.
Qed.

Lemma pthread_barrier_init_pshared_witness :
  ∃ m' o psh,
    pthread_barrier_init env_ok (Some 1%positive) (Some 3%positive) 3
      (sample_memory Null (sample_block 0 0 MtxNull)) = Done (0, m') ∧
    barrier_heap m' !! 5%positive = Some o ∧
    semBarrierBreeched o = Some {| sem_pshared := psh; sem_value := 0 |} ∧
    psh = PTHREAD_PROCESS_PRIVATE.
Proof.
  eexists.
  destruct (pthread_barrier_init_pshared env_ok 1%positive (Some 3%positive) 3
              (sample_memory Null (sample_block 0 0 MtxNull)) _
              ltac:(vm_compute; reflexivity))
    as (o & psh & Ho & Hs & _ & _ & Hp).
  exists o, psh. split; [reflexivity|]. split; [exact Ho|]. split; [exact Hs|].
  apply (Hp 3%positive 4%positive {| pshared := PTHREAD_PROCESS_PRIVATE |});
    reflexivity.
Defined.

(** ** Destruction, continued *)

Lemma set_guard_roundtrip t f m :
  ptw32_barrier_test_init_lock m = None →
  set_guard None (set_barrier_vars f (set_guard (Some t) m)) = set_barrier_vars f m.
Proof. destruct m; simpl; intros ->; reflexivity. Qed.

(** X11.  [pthread_barrier_destroy] on a handle that points to a live block
    whose mutex is free returns 0 after nine statements; the handle is
    NULL, the block is freed, and nothing else in memory has changed. *)
Theorem pthread_barrier_destroy_live e n t th p a o m :
  barrier_vars m !! p = Some (Ptr a) →
  barrier_heap m !! a = Some o →
  mtxExclusiveAccess o = MtxUnlocked →
  ∃ th',
    pthread_barrier_destroy e (9 + n) t th (Some p) m =
      Done (th', set_barrier_heap (delete a) (set_barrier_vars (insert p Null) m)) ∧
    pc th' = Returned 0.
Proof.
  intros Hp Ha Hm. unfold pthread_barrier_destroy.
  change (9 + n)%nat with (S (S (S (S (S (S (S (S (S n))))))))).
  do 5 run_one ltac:(rewrite ?Hp, ?Ha, ?Hm).
  destruct (semBarrierBreeched o) as [s|] eqn:Hs;
    do 4 run_one ltac:(rewrite ?Hp, ?Ha, ?Hm, ?Hs);
    (eexists; split;
     [rewrite run_returned by reflexivity;
      unfold set_barrier_heap, set_barrier_vars; simpl;
      rewrite ?delete_insert_eq; reflexivity
     |reflexivity]).
Qed.

Lemma pthread_barrier_destroy_live_witness :
  ∃ th',
    pthread_barrier_destroy env_ok 9 0%nat
      (sample_thread PTHREAD_CANCEL_ENABLE PTHREAD_CANCEL_DEFERRED) (Some 1%positive)
      (sample_memory (Ptr 2%positive) (sample_block 2 2 MtxUnlocked)) =
      Done (th',
            set_barrier_heap (delete 2%positive)
              (set_barrier_vars (insert 1%positive Null)
                 (sample_memory (Ptr 2%positive) (sample_block 2 2 MtxUnlocked)))) ∧
    pc th' = Returned 0.
Proof.
  exact (pthread_barrier_destroy_live env_ok 0 0%nat
           (sample_thread PTHREAD_CANCEL_ENABLE PTHREAD_CANCEL_DEFERRED)
           1%positive 2%positive (sample_block 2 2 MtxUnlocked)
           (sample_memory (Ptr 2%positive) (sample_block 2 2 MtxUnlocked))
           eq_refl eq_refl eq_refl).
Defined.

(** X12.  [pthread_barrier_destroy] on a statically initialised barrier that
    has not been used, with [ptw32_barrier_test_init_lock] free, returns 0
    after three statements; the handle is NULL, the lock is free again and
    nothing else has changed. *)
Theorem pthread_barrier_destroy_static e n t th p m :
  barrier_vars m !! p = Some PTW32_OBJECT_AUTO_INIT →
  ptw32_barrier_test_init_lock m = None →
  ∃ th',
    pthread_barrier_destroy e (3 + n) t th (Some p) m =
      Done (th', set_barrier_vars (insert p Null) m) ∧
    pc th' = Returned 0.
Proof.
  intros Hp Hg. unfold pthread_barrier_destroy.
  change (3 + n)%nat with (S (S (S n))).
  do 3 run_one ltac:(rewrite ?Hp, ?Hg).
  eexists. split.
  - rewrite run_returned by reflexivity. rewrite set_guard_roundtrip by assumption.
    reflexivity.
  - reflexivity.
Qed.

Lemma pthread_barrier_destroy_static_witness :
  ∃ th',
    pthread_barrier_destroy env_ok 3 0%nat
      (sample_thread PTHREAD_CANCEL_ENABLE PTHREAD_CANCEL_DEFERRED) (Some 1%positive)
      (sample_memory PTW32_OBJECT_AUTO_INIT (sample_block 0 0 MtxNull)) =
      Done (th',
            set_barrier_vars (insert 1%positive Null)
              (sample_memory PTW32_OBJECT_AUTO_INIT (sample_block 0 0 MtxNull))) ∧
    pc th' = Returned 0.
Proof.
  exact (pthread_barrier_destroy_static env_ok 0 0%nat
           (sample_thread PTHREAD_CANCEL_ENABLE PTHREAD_CANCEL_DEFERRED) 1%positive
           (sample_memory PTW32_OBJECT_AUTO_INIT (sample_block 0 0 MtxNull))
           eq_refl eq_refl).
Defined.

(** X13.  [pthread_barrier_destroy] with [barrier] NULL or [*barrier] NULL
    returns [EINVAL] at its first statement and changes nothing. *)
Theorem pthread_barrier_destroy_invalid e n t th barrier m :
  (barrier = None ∨ ∃ p, barrier = Some p ∧ barrier_vars m !! p = Some Null) →
  pthread_barrier_destroy e (S n) t th barrier m =
    Done (set_pc (Returned EINVAL) (set_result 0 (set_barrier barrier th)), m).
Proof.
  intros [-> | (p & -> & Hp)]; unfold pthread_barrier_destroy.
  - run_one idtac. apply run_returned. reflexivity.
  - run_one ltac:(rewrite ?Hp). apply run_returned. reflexivity.
Qed.

Lemma pthread_barrier_destroy_invalid_witness :
  pthread_barrier_destroy env_ok 1 0%nat
    (sample_thread PTHREAD_CANCEL_ENABLE PTHREAD_CANCEL_DEFERRED) (Some 1%positive)
    (sample_memory Null (sample_block 2 2 MtxUnlocked)) =
    Done (set_pc (Returned EINVAL)
            (set_result 0
               (set_barrier (Some 1%positive)
                  (sample_thread PTHREAD_CANCEL_ENABLE PTHREAD_CANCEL_DEFERRED))),
          sample_memory Null (sample_block 2 2 MtxUnlocked)).
Proof.
  apply pthread_barrier_destroy_invalid.
  right. exists 1%positive. split; reflexivity.
Defined.

Lemma wait_on_null_handle e n t th p m :
  barrier_vars m !! p = Some Null →
  pthread_barrier_wait e (S n) t th (Some p) m =
    Done (set_pc (Returned EINVAL) (set_barrier (Some p) th), m).
Proof.
  intros Hp. unfold pthread_barrier_wait.
  run_one ltac:(rewrite ?Hp). apply run_returned. reflexivity.
Qed.

Lemma destroy_on_null_handle e n t th p m :
  barrier_vars m !! p = Some Null →
  pthread_barrier_destroy e (S n) t th (Some p) m =
    Done (set_pc (Returned EINVAL) (set_result 0 (set_barrier (Some p) th)), m).
Proof.
  intros Hp. unfold pthread_barrier_destroy.
  run_one ltac:(rewrite ?Hp). apply run_returned. reflexivity.
Qed.

(** X14.  After a [pthread_barrier_destroy] that succeeds, on a live barrier
    with a free mutex or on an unused static one, the handle is NULL, and
    every later [pthread_barrier_wait] or [pthread_barrier_destroy] on it,
    by any thread, returns [EINVAL] and leaves the memory as it is. *)
Theorem destroy_then_use e n t th p m :
  (∃ a o, barrier_vars m !! p = Some (Ptr a) ∧ barrier_heap m !! a = Some o ∧
          mtxExclusiveAccess o = MtxUnlocked) ∨
  (barrier_vars m !! p = Some PTW32_OBJECT_AUTO_INIT ∧
   ptw32_barrier_test_init_lock m = None) →
  ∃ th1 m1,
    pthread_barrier_destroy e (9 + n) t th (Some p) m = Done (th1, m1) ∧
    pc th1 = Returned 0 ∧
    barrier_vars m1 !! p = Some Null ∧
    (∀ e' k t' th2,
       pthread_barrier_wait e' (S k) t' th2 (Some p) m1 =
         Done (set_pc (Returned EINVAL) (set_barrier (Some p) th2), m1)) ∧
    (∀ e' k t' th2,
       pthread_barrier_destroy e' (S k) t' th2 (Some p) m1 =
         Done (set_pc (Returned EINVAL) (set_result 0 (set_barrier (Some p) th2)), m1)).
Proof.
  assert (∀ th1 m1, pc th1 = Returned 0 → barrier_vars m1 !! p = Some Null →
            pc th1 = Returned 0 ∧ barrier_vars m1 !! p = Some Null ∧
            (∀ e' k t' th2,
               pthread_barrier_wait e' (S k) t' th2 (Some p) m1 =
                 Done (set_pc (Returned EINVAL) (set_barrier (Some p) th2), m1)) ∧
            (∀ e' k t' th2,
               pthread_barrier_destroy e' (S k) t' th2 (Some p) m1 =
                 Done (set_pc (Returned EINVAL)
                         (set_result 0 (set_barrier (Some p) th2)), m1))) as Huse.
  { intros th1 m1 Hr Hnull. repeat split; auto; intros.
    - apply wait_on_null_handle, Hnull.
    - apply destroy_on_null_handle, Hnull. }
  unfold pthread_barrier_destroy at 1.
  change (9 + n)%nat with (S (S (S (S (S (S (S (S (S n))))))))).
  intros [(a & o & Hp & Ha & Hm)|[Hp Hg]].
  - do 5 run_one ltac:(rewrite ?Hp, ?Ha, ?Hm).
    destruct (semBarrierBreeched o) as [s|] eqn:Hs;
      do 4 run_one ltac:(rewrite ?Hp, ?Ha, ?Hm, ?Hs);
      rewrite run_returned by reflexivity;
      (do 2 eexists; split; [reflexivity|]);
      (apply Huse; [reflexivity|simpl; apply lookup_insert_eq]).
  - do 3 run_one ltac:(rewrite ?Hp, ?Hg).
    rewrite run_returned by reflexivity.
    do 2 eexists. split; [reflexivity|].
    apply Huse; [reflexivity|simpl; apply lookup_insert_eq].
Qed.

Lemma destroy_then_use_witness :
  ∃ th1 m1,
    pthread_barrier_destroy env_ok 9 0%nat
      (sample_thread PTHREAD_CANCEL_ENABLE PTHREAD_CANCEL_DEFERRED) (Some 1%positive)
      (sample_memory (Ptr 2%positive) (sample_block 2 2 MtxUnlocked)) = Done (th1, m1) ∧
    pc th1 = Returned 0 ∧
    barrier_vars m1 !! 1%positive = Some Null ∧
    pthread_barrier_wait env_ok 1 1%nat
      (sample_thread PTHREAD_CANCEL_ENABLE PTHREAD_CANCEL_ASYNCHRONOUS) (Some 1%positive) m1 =
      Done (set_pc (Returned EINVAL)
              (set_barrier (Some 1%positive)
                 (sample_thread PTHREAD_CANCEL_ENABLE PTHREAD_CANCEL_ASYNCHRONOUS)), m1).
Proof.
  destruct (destroy_then_use env_ok 0 0%nat
              (sample_thread PTHREAD_CANCEL_ENABLE PTHREAD_CANCEL_DEFERRED) 1%positive
              (sample_memory (Ptr 2%positive) (sample_block 2 2 MtxUnlocked)))
    as (th1 & m1 & Hrun & Hpc & Hnull & Hwait & _).
  { left. exists 2%positive, (sample_block 2 2 MtxUnlocked).
    repeat split; reflexivity. }
  exists th1, m1. repeat split; [exact Hrun|exact Hpc|exact Hnull|apply Hwait].
Defined.

Lemma destroy_undisturbed_step e t th m th' m' :
  destroy_undisturbed th m →
  thread_step e t th m = Done (th', m') →
  destroy_undisturbed th' m'.
Proof.
  intros Hinv H. destruct th as [l st ty stack bar res b0 lty old].
  unfold destroy_undisturbed in *. simpl in Hinv.
  unfold thread_step, wait_step, destroy_step in H.
  destruct l; simpl in H; try contradiction; try discriminate.
  all: unfold PTW32_OBJECT_INVALID in *; unfold_prims; crunch; auto.
  - split; [reflexivity|]. eexists. split; [reflexivity|assumption].
  - destruct Hinv as (-> & p0 & Hb & Hv). left. reflexivity.
  - destruct Hinv as (_ & p1 & Hb & Hv). simplify_eq.
Qed.

Lemma destroy_undisturbed_run e n t th m th' m' :
  destroy_undisturbed th m →
  run e n t th m = Done (th', m') →
  destroy_undisturbed th' m'.
Proof.
  revert th m. induction n as [|n IH]; intros th m Hinv H.
  - unfold run, ret in H. simplify_eq. exact Hinv.
  - rewrite run_unfold in H. destruct (between_calls (pc th)).
    + simplify_eq. exact Hinv.
    + destruct (thread_step e t th m) as [[th1 m1]| |] eqn:Hs; try discriminate.
      eapply IH; [|exact H]. eapply destroy_undisturbed_step; eauto.
Qed.

(** X15.  A [pthread_barrier_destroy] during which no other thread takes a
    turn returns 0 or [EINVAL], whatever the memory holds: the [EBUSY] of
    line 197 needs another thread to change the handle between lines 150
    and 181, and a held mutex (line 154) leaves [result] at 0. *)
Theorem pthread_barrier_destroy_undisturbed_result e n t th barrier m th' m' r :
  pthread_barrier_destroy e n t th barrier m = Done (th', m') →
  pc th' = Returned r →
  r = 0 ∨ r = EINVAL.
Proof.
  intros H Hpc. unfold pthread_barrier_destroy in H.
  apply destroy_undisturbed_run in H; [|reflexivity].
  unfold destroy_undisturbed in H. rewrite Hpc in H. exact H.
Qed.

Lemma pthread_barrier_destroy_undisturbed_result_witness :
  ∃ th' m',
    pthread_barrier_destroy env_ok 9 0%nat
      (sample_thread PTHREAD_CANCEL_ENABLE PTHREAD_CANCEL_DEFERRED) (Some 1%positive)
      (sample_memory (Ptr 2%positive) (sample_block 1 2 (MtxLocked 1%nat))) =
      Done (th', m') ∧
    pc th' = Returned 0 ∧ (0 = 0 ∨ 0 = EINVAL).
Proof.
  do 2 eexists. split; [vm_compute; reflexivity|]. split; [reflexivity|].
  eapply (pthread_barrier_destroy_undisturbed_result env_ok 9 0%nat
            (sample_thread PTHREAD_CANCEL_ENABLE PTHREAD_CANCEL_DEFERRED)
            (Some 1%positive)
            (sample_memory (Ptr 2%positive) (sample_block 1 2 (MtxLocked 1%nat))));
    [vm_compute; reflexivity|reflexivity].
Defined.

(** ** Arrival, continued *)

(** X16.  When [pthread_mutex_lock] at line 228 fails (the mutex of the block
    is not initialised), [pthread_barrier_wait] returns its result,
    [EINVAL], after four statements; the memory, the cleanup stack and the
    cancellation state are untouched. *)
Theorem pthread_barrier_wait_lock_fails e n t th p a o m :
  barrier_vars m !! p = Some (Ptr a) →
  barrier_heap m !! a = Some o →
  mtxExclusiveAccess o = MtxNull →
  ∃ th', pthread_barrier_wait e (4 + n) t th (Some p) m = Done (th', m) ∧
         pc th' = Returned EINVAL ∧
         cleanup_stack th' = cleanup_stack th ∧
         thr_cancelstate th' = thr_cancelstate th.
Proof.
  intros Hp Ha Hm. unfold pthread_barrier_wait.
  change (4 + n)%nat with (S (S (S (S n)))).
  do 4 run_one ltac:(rewrite ?Hp, ?Ha, ?Hm).
  eexists. split; [apply run_returned; reflexivity|].
  repeat apply conj; reflexivity.
Qed.

Lemma pthread_barrier_wait_lock_fails_witness :
  ∃ th',
    pthread_barrier_wait env_ok 4 0%nat
      (sample_thread PTHREAD_CANCEL_ENABLE PTHREAD_CANCEL_DEFERRED) (Some 1%positive)
      (sample_memory (Ptr 2%positive) (sample_block 2 2 MtxNull)) =
      Done (th', sample_memory (Ptr 2%positive) (sample_block 2 2 MtxNull)) ∧
    pc th' = Returned EINVAL ∧
    cleanup_stack th' = [] ∧
    thr_cancelstate th' = PTHREAD_CANCEL_ENABLE.
Proof.
  exact (pthread_barrier_wait_lock_fails env_ok 0 0%nat
           (sample_thread PTHREAD_CANCEL_ENABLE PTHREAD_CANCEL_DEFERRED)
           1%positive 2%positive (sample_block 2 2 MtxNull)
           (sample_memory (Ptr 2%positive) (sample_block 2 2 MtxNull))
           eq_refl eq_refl eq_refl).
Defined.

(** One statement of a call, by rewriting with the equation of its step. *)
Lemma run_step e k t th m th' m' :
  between_calls (pc th) = false →
  thread_step e t th m = Done (th', m') →
  run e (S k) t th m = run e k t th' m'.
Proof. intros Hb Hs. rewrite run_unfold, Hb, Hs. reflexivity. Qed.

Ltac step_one rewrite_known :=
  erewrite run_step;
  [ | reflexivity
    | unfold thread_step, wait_step, destroy_step; simpl;
      unfold PTW32_OBJECT_INVALID, PTHREAD_OBJECT_AUTO_INIT;
      unfold_prims; unfold_M; simpl;
      repeat progress
        (rewrite_known; rewrite ?lookup_insert_eq;
         try match goal with
             | |- context [decide (?x = ?x)] =>
                 rewrite (decide_True (P := x = x)) by reflexivity
             end;
         simpl);
      reflexivity ].

(** X17.  [pthread_barrier_wait] on a live barrier whose mutex is owned, by
    any thread, the caller included, waits at line 228: its first three
    statements change nothing, the fourth cannot be run, and the call
    does not return however many statements it is given. *)
Theorem pthread_barrier_wait_blocked_by_owner e t th p a o t0 m :
  barrier_vars m !! p = Some (Ptr a) →
  barrier_heap m !! a = Some o →
  mtxExclusiveAccess o = MtxLocked t0 →
  (∃ th3, pthread_barrier_wait e 3 t th (Some p) m = Done (th3, m) ∧
          pc th3 = W_lock ∧ thread_step e t th3 m = Blocked) ∧
  ∀ n, pthread_barrier_wait e (4 + n) t th (Some p) m = Blocked.
Proof.
  intros Hp Ha Hm. unfold pthread_barrier_wait, enter. split.
  - do 3 step_one ltac:(rewrite ?Hp, ?Ha, ?Hm).
    eexists. split; [reflexivity|]. split; [reflexivity|].
    unfold thread_step, wait_step. simpl.
    unfold_prims. unfold_M. simpl. rewrite ?Ha. simpl. rewrite Hm. reflexivity.
  - intros n. change (4 + n)%nat with (S (S (S (S n)))).
    do 3 step_one ltac:(rewrite ?Hp, ?Ha, ?Hm).
    rewrite run_unfold. simpl. unfold thread_step, wait_step. simpl.
    unfold_prims. unfold_M. simpl. rewrite ?Ha. simpl. rewrite Hm. reflexivity.
Qed.

Lemma pthread_barrier_wait_blocked_by_owner_witness :
  pthread_barrier_wait env_ok 4 0%nat
    (sample_thread PTHREAD_CANCEL_ENABLE PTHREAD_CANCEL_DEFERRED) (Some 1%positive)
    (sample_memory (Ptr 2%positive) (sample_block 1 2 (MtxLocked 1%nat))) = Blocked.
Proof.
  apply (pthread_barrier_wait_blocked_by_owner env_ok 0%nat
           (sample_thread PTHREAD_CANCEL_ENABLE PTHREAD_CANCEL_DEFERRED)
           1%positive 2%positive (sample_block 1 2 (MtxLocked 1%nat)) 1%nat
           (sample_memory (Ptr 2%positive) (sample_block 1 2 (MtxLocked 1%nat)))
           eq_refl eq_refl eq_refl).
Defined.

(** X18.  An arrival that is not the last (its decrement gives a height other
    than 0) on a barrier with a free mutex and a posted semaphore, whose
    [sem_wait] succeeds, returns 0 after ten statements: the current
    height is one less, the semaphore has one count less, the mutex is
    free, and the cleanup stack, the cancellation state and the
    cancellation type of the thread are what they were. *)
Theorem pthread_barrier_wait_released e n t th p a o s m :
  barrier_vars m !! p = Some (Ptr a) →
  barrier_heap m !! a = Some o →
  mtxExclusiveAccess o = MtxUnlocked →
  semBarrierBreeched o = Some s →
  0 < sem_value s →
  sem_wait_errno e = None →
  wrap_int (nCurrentBarrierHeight o - 1) ≠ 0 →
  ∃ th',
    pthread_barrier_wait e (10 + n) t th (Some p) m =
      Done (th',
            set_barrier_heap
              (insert a
                 {| nCurrentBarrierHeight := wrap_int (nCurrentBarrierHeight o - 1);
                    nInitialBarrierHeight := nInitialBarrierHeight o;
                    mtxExclusiveAccess := MtxUnlocked;
                    semBarrierBreeched :=
                      Some {| sem_pshared := sem_pshared s;
                              sem_value := sem_value s - 1 |} |})
              m) ∧
    pc th' = Returned 0 ∧
    cleanup_stack th' = cleanup_stack th ∧
    thr_cancelstate th' = thr_cancelstate th ∧
    thr_canceltype th' = thr_canceltype th.
Proof.
  intros Hp Ha Hm Hs Hv He Hnz. unfold pthread_barrier_wait.
  change (10 + n)%nat with (S (S (S (S (S (S (S (S (S (S n)))))))))).
  destruct th as [l st ty stack bar res b0 lty old].
  do 4 run_one ltac:(rewrite ?Hp, ?Ha, ?Hm).
  step_one ltac:(rewrite ?Ha, ?Hm, ?(decide_False (P := 0 = wrap_int (nCurrentBarrierHeight o - 1))) by congruence).
  destruct ty.
  all: do 2 step_one ltac:(rewrite ?Ha, ?Hm, ?Hs, ?He).
  all: step_one ltac:(rewrite ?Ha, ?Hm, ?Hs, ?He, ?(decide_True (P := 0 < sem_value s)) by assumption).
  all: do 2 step_one ltac:(rewrite ?Ha, ?Hm, ?Hs, ?He).

  all:  rewrite run_returned by reflexivity.
  all:  rewrite !set_barrier_heap_twice; unfold set_barrier_heap, compose;
    rewrite !insert_insert_eq.
  all: (eexists; split; [reflexivity|repeat apply conj; reflexivity]).
Qed.

Lemma pthread_barrier_wait_released_witness :
  ∃ th',
    pthread_barrier_wait env_ok 10 0%nat
      (sample_thread PTHREAD_CANCEL_ENABLE PTHREAD_CANCEL_DEFERRED) (Some 1%positive)
      (sample_memory (Ptr 2%positive) (sample_block_posted 2 2 1)) =
      Done (th', sample_memory (Ptr 2%positive) (sample_block_posted 1 2 0)) ∧
    pc th' = Returned 0 ∧
    thr_cancelstate th' = PTHREAD_CANCEL_ENABLE.
Proof.
  destruct (pthread_barrier_wait_released env_ok 0 0%nat
              (sample_thread PTHREAD_CANCEL_ENABLE PTHREAD_CANCEL_DEFERRED)
              1%positive 2%positive (sample_block_posted 2 2 1)
              {| sem_pshared := PTHREAD_PROCESS_PRIVATE; sem_value := 1 |}
              (sample_memory (Ptr 2%positive) (sample_block_posted 2 2 1))
              eq_refl eq_refl eq_refl eq_refl eq_refl eq_refl
              ltac:(vm_compute; discriminate))
    as (th' & Hrun & Hpc & _ & Hst & _).
  exists th'. split; [|split; [exact Hpc|exact Hst]].
  change (10 + 0)%nat with 10%nat in Hrun. rewrite Hrun. vm_compute. reflexivity.
Defined.

(** X19.  When [sem_wait] at line 265 fails, an arrival that is not the last
    returns [errno] after ten statements: the current height is one less
    all the same, the semaphore is untouched, the mutex is free, and the
    cleanup stack and the cancellation state and type of the thread are
    what they were. *)
Theorem pthread_barrier_wait_sem_wait_error e n t th p a o err m :
  barrier_vars m !! p = Some (Ptr a) →
  barrier_heap m !! a = Some o →
  mtxExclusiveAccess o = MtxUnlocked →
  sem_wait_errno e = Some err →
  wrap_int (nCurrentBarrierHeight o - 1) ≠ 0 →
  ∃ th',
    pthread_barrier_wait e (10 + n) t th (Some p) m =
      Done (th',
            set_barrier_heap
              (insert a
                 {| nCurrentBarrierHeight := wrap_int (nCurrentBarrierHeight o - 1);
                    nInitialBarrierHeight := nInitialBarrierHeight o;
                    mtxExclusiveAccess := MtxUnlocked;
                    semBarrierBreeched := semBarrierBreeched o |})
              m) ∧
    pc th' = Returned err ∧
    cleanup_stack th' = cleanup_stack th ∧
    thr_cancelstate th' = thr_cancelstate th ∧
    thr_canceltype th' = thr_canceltype th.
Proof.
  intros Hp Ha Hm He Hnz. unfold pthread_barrier_wait, enter.
  change (10 + n)%nat with (S (S (S (S (S (S (S (S (S (S n)))))))))).
  destruct th as [l st ty stack bar res b0 lty old].
  do 4 step_one ltac:(rewrite ?Hp, ?Ha, ?Hm).
  step_one ltac:(rewrite ?Ha, ?Hm,
                   ?(decide_False (P := 0 = wrap_int (nCurrentBarrierHeight o - 1)))
                   by congruence).
  destruct ty.
  all: do 5 step_one ltac:(rewrite ?Ha, ?Hm, ?He).
  all: rewrite run_returned by reflexivity.
  all: rewrite !set_barrier_heap_twice; unfold set_barrier_heap, compose;
    rewrite !insert_insert_eq.
  all: (eexists; split; [reflexivity|repeat apply conj; reflexivity]).
Qed.

Lemma pthread_barrier_wait_sem_wait_error_witness :
  ∃ th',
    pthread_barrier_wait env_interrupted 10 0%nat
      (sample_thread PTHREAD_CANCEL_ENABLE PTHREAD_CANCEL_DEFERRED) (Some 1%positive)
      (sample_memory (Ptr 2%positive) (sample_block 2 2 MtxUnlocked)) =
      Done (th', sample_memory (Ptr 2%positive) (sample_block 1 2 MtxUnlocked)) ∧
    pc th' = Returned 4 ∧
    thr_cancelstate th' = PTHREAD_CANCEL_ENABLE.
Proof.
  destruct (pthread_barrier_wait_sem_wait_error env_interrupted 0 0%nat
              (sample_thread PTHREAD_CANCEL_ENABLE PTHREAD_CANCEL_DEFERRED)
              1%positive 2%positive (sample_block 2 2 MtxUnlocked) 4
              (sample_memory (Ptr 2%positive) (sample_block 2 2 MtxUnlocked))
              eq_refl eq_refl eq_refl eq_refl ltac:(vm_compute; discriminate))
    as (th' & Hrun & Hpc & _ & Hst & _).
  exists th'. split; [|split; [exact Hpc|exact Hst]].
  change (10 + 0)%nat with 10%nat in Hrun. rewrite Hrun. vm_compute. reflexivity.
Defined.

(** With the lock free, the lazy initialisation of a static barrier
    returns, and leaves the barrier variables alone. *)
Lemma lazy_init_returns e t p m :
  barrier_vars m !! p = Some PTW32_OBJECT_AUTO_INIT →
  ptw32_barrier_test_init_lock m = None →
  ∃ r m1, ptw32_barrier_check_need_init e t p m = Done (r, m1) ∧
          barrier_vars m1 = barrier_vars m.
Proof.
  intros Hp Hg.
  destruct (ptw32_barrier_check_need_init e t p m) as [[r m1]| |] eqn:H;
    [exists r, m1; split; [reflexivity|]|exfalso|exfalso];
    unfold ptw32_barrier_check_need_init, pthread_barrier_init in H;
    unfold_prims; unfold_M; rewrite Hg in H; simpl in H; rewrite Hp in H;
    crunch; reflexivity.
Qed.

(** X20.  [pthread_barrier_wait] on a statically initialised barrier, with
    [ptw32_barrier_test_init_lock] free, never gets to the barrier.  The
    lazy initialisation of line 220 returns and leaves the barrier
    variables as they are.  If its result is not 0 the call returns it;
    if it is 0 the call faults, because line 228 dereferences the static
    initialiser that [pthread_barrier_init] has left in [*barrier]. *)
Theorem pthread_barrier_wait_static e n t th p m :
  barrier_vars m !! p = Some PTW32_OBJECT_AUTO_INIT →
  ptw32_barrier_test_init_lock m = None →
  ∃ r m1,
    ptw32_barrier_check_need_init e t p m = Done (r, m1) ∧
    barrier_vars m1 = barrier_vars m ∧
    (r = 0 → pthread_barrier_wait e (4 + n) t th (Some p) m = Fault) ∧
    (r ≠ 0 →
     ∃ th', pthread_barrier_wait e (4 + n) t th (Some p) m = Done (th', m1) ∧
            pc th' = Returned r).
Proof.
  intros Hp Hg. unfold pthread_barrier_wait, enter.
  change (4 + n)%nat with (S (S (S (S n)))).
  destruct (lazy_init_returns e t p m Hp Hg) as (r & m1 & Hinit & Hvars).
  exists r, m1. split; [exact Hinit|]. split; [exact Hvars|].
  step_one ltac:(rewrite ?Hp).
  split.
  - intros ->.
    step_one ltac:(rewrite ?Hp, ?Hinit).
    step_one ltac:(rewrite ?Hvars, ?Hp).
    rewrite run_unfold. reflexivity.
  - intros Hr.
    step_one ltac:(rewrite ?Hp, ?Hinit, ?(decide_True (P := r ≠ 0)) by assumption).
    rewrite run_returned by reflexivity.
    eexists. split; reflexivity.
Qed.

Lemma pthread_barrier_wait_static_witness :
  pthread_barrier_wait env_ok 4 0%nat
    (sample_thread PTHREAD_CANCEL_ENABLE PTHREAD_CANCEL_DEFERRED) (Some 1%positive)
    (sample_memory PTW32_OBJECT_AUTO_INIT (sample_block 0 0 MtxNull)) = Fault ∧
  ∃ th' m1,
    pthread_barrier_wait env_no_memory 4 0%nat
      (sample_thread PTHREAD_CANCEL_ENABLE PTHREAD_CANCEL_DEFERRED) (Some 1%positive)
      (sample_memory PTW32_OBJECT_AUTO_INIT (sample_block 0 0 MtxNull)) = Done (th', m1) ∧
    pc th' = Returned ENOMEM ∧
    barrier_vars m1 !! 1%positive = Some PTW32_OBJECT_AUTO_INIT.
Proof.
  split.
  - destruct (pthread_barrier_wait_static env_ok 0 0%nat
                (sample_thread PTHREAD_CANCEL_ENABLE PTHREAD_CANCEL_DEFERRED) 1%positive
                (sample_memory PTW32_OBJECT_AUTO_INIT (sample_block 0 0 MtxNull))
                eq_refl eq_refl) as (r & m1 & Hinit & _ & Hok & _).
    apply Hok. vm_compute in Hinit. injection Hinit as Hr _. symmetry. exact Hr.
  - destruct (pthread_barrier_wait_static env_no_memory 0 0%nat
                (sample_thread PTHREAD_CANCEL_ENABLE PTHREAD_CANCEL_DEFERRED) 1%positive
                (sample_memory PTW32_OBJECT_AUTO_INIT (sample_block 0 0 MtxNull))
                eq_refl eq_refl) as (r & m1 & Hinit & Hvars & _ & Hfail).
    assert (r = ENOMEM) as ->
      by (vm_compute in Hinit; injection Hinit as Hr _; symmetry; exact Hr).
    destruct (Hfail ltac:(vm_compute; discriminate)) as (th' & Hrun & Hpc).
    exists th', m1. split; [exact Hrun|]. split; [exact Hpc|].
    rewrite Hvars. reflexivity.
Defined.

(** ** Several threads, continued *)

(** X21.  A thread with asynchronous cancellation type and cancellation
    enabled that arrives at a barrier, not as the last, can be cancelled
    in [sem_wait].  Its cleanup handler releases the mutex and nothing
    more: the thread has ended, and the current height still counts its
    arrival. *)
Theorem cancelled_waiter_stays_counted t th p a o s :
  threads s !! t = Some th →
  between_calls (pc th) = true →
  thr_canceltype th = PTHREAD_CANCEL_ASYNCHRONOUS →
  thr_cancelstate th = PTHREAD_CANCEL_ENABLE →
  cleanup_stack th = [] →
  barrier_vars (mem s) !! p = Some (Ptr a) →
  barrier_heap (mem s) !! a = Some o →
  mtxExclusiveAccess o = MtxUnlocked →
  wrap_int (nCurrentBarrierHeight o - 1) ≠ 0 →
  ∃ s',
    rtc step s s' ∧
    (∃ th', threads s' !! t = Some th' ∧ pc th' = Cancelled ∧ cleanup_stack th' = []) ∧
    barrier_vars (mem s') = barrier_vars (mem s) ∧
    barrier_heap (mem s') =
      <[a := {| nCurrentBarrierHeight := wrap_int (nCurrentBarrierHeight o - 1);
                nInitialBarrierHeight := nInitialBarrierHeight o;
                mtxExclusiveAccess := MtxUnlocked;
                semBarrierBreeched := semBarrierBreeched o |}]> (barrier_heap (mem s)).
Proof.
  intros Ht Hbc Hty Hst Hstack Hp Ha Hm Hnz.
  destruct s as [T m]. simpl in *.
  destruct th as [l st ty stack bar res b0 lty old]. simpl in Hbc, Hty, Hst, Hstack.
  subst ty st stack.
  assert (∃ th7,
    run env_ok 7 t
      (enter (Call_wait (Some p))
         {| pc := l; thr_cancelstate := PTHREAD_CANCEL_ENABLE;
            thr_canceltype := PTHREAD_CANCEL_ASYNCHRONOUS;
            cleanup_stack := []; barrier := bar; result := res; b := b0;
            cancelType := lty; oldCancelState := old |}) m =
      Done (th7,
            set_barrier_heap
              (insert a {| nCurrentBarrierHeight := wrap_int (nCurrentBarrierHeight o - 1);
                           nInitialBarrierHeight := nInitialBarrierHeight o;
                           mtxExclusiveAccess := MtxLocked t;
                           semBarrierBreeched := semBarrierBreeched o |}) m) ∧
    pc th7 = W_sem_wait ∧ cleanup_stack th7 = [a] ∧
    thr_cancelstate th7 = PTHREAD_CANCEL_ENABLE) as (th7 & Hrun & Hpc7 & Hst7 & Hcs7).
  { unfold enter.
    do 4 step_one ltac:(rewrite ?Hp, ?Ha, ?Hm).
    step_one ltac:(rewrite ?Ha, ?Hm,
                     ?(decide_False (P := 0 = wrap_int (nCurrentBarrierHeight o - 1)))
                     by congruence).
    do 2 step_one ltac:(rewrite ?Ha, ?Hm).
    eexists. split.
    - unfold run, ret. rewrite !set_barrier_heap_twice.
      unfold set_barrier_heap, compose. rewrite !insert_insert_eq. reflexivity.
    - repeat apply conj; reflexivity. }
  eexists. split; [|split; [|split]].
  - eapply rtc_l.
    { eapply (step_enter _ t _ (Call_wait (Some p))); [exact Ht|exact Hbc]. }
    eapply rtc_trans.
    { eapply (run_steps env_ok 7 t); [apply lookup_insert_eq|exact Hrun]. }
    apply rtc_once.
    eapply (step_cancel _ t th7); simpl;
      [apply lookup_insert_eq|exact Hpc7|exact Hcs7|].
    rewrite Hst7. simpl. unfold pthread_mutex_unlock. unfold_prims. unfold_M.
    repeat progress (simpl; rewrite ?lookup_insert_eq).
    rewrite (decide_True (P := t = t)) by reflexivity.
    repeat progress (simpl; rewrite ?lookup_insert_eq). reflexivity.
  - simpl. rewrite lookup_insert_eq. eexists. split; [reflexivity|]. split; reflexivity.
  - reflexivity.
  - simpl. rewrite insert_insert_eq. reflexivity.
Qed.

Lemma cancelled_waiter_stays_counted_witness :
  ∃ s',
    rtc step (sample_system (Ptr 2%positive) (sample_block 2 2 MtxUnlocked)) s' ∧
    (∃ th', threads s' !! 1%nat = Some th' ∧ pc th' = Cancelled ∧ cleanup_stack th' = []) ∧
    barrier_heap (mem s') !! 2%positive = Some (sample_block 1 2 MtxUnlocked).
Proof.
  destruct (cancelled_waiter_stays_counted 1%nat
              (sample_thread PTHREAD_CANCEL_ENABLE PTHREAD_CANCEL_ASYNCHRONOUS)
              1%positive 2%positive (sample_block 2 2 MtxUnlocked)
              (sample_system (Ptr 2%positive) (sample_block 2 2 MtxUnlocked))
              eq_refl eq_refl eq_refl eq_refl eq_refl eq_refl eq_refl eq_refl
              ltac:(vm_compute; discriminate))
    as (s' & Hsteps & Hth & _ & Hheap).
  exists s'. split; [exact Hsteps|]. split; [exact Hth|].
  rewrite Hheap. reflexivity.
Defined.

(** X22.  The race of the comment at lines 156-162.  While one thread is
    inside [pthread_barrier_wait] on a live barrier with a free mutex,
    past the test of line 213 and about to take the mutex at line 228,
    another thread can run [pthread_barrier_destroy] on the same barrier
    to its end: it returns 0 and the block is freed.  The first thread
    then faults at line 228, where it dereferences the freed block. *)
Theorem destroy_races_wait t1 t2 th1 th2 p a o s :
  t1 ≠ t2 →
  threads s !! t1 = Some th1 → between_calls (pc th1) = true →
  threads s !! t2 = Some th2 → between_calls (pc th2) = true →
  barrier_vars (mem s) !! p = Some (Ptr a) →
  barrier_heap (mem s) !! a = Some o →
  mtxExclusiveAccess o = MtxUnlocked →
  ∃ s' th1' th2',
    rtc step s s' ∧
    threads s' !! t2 = Some th2' ∧ pc th2' = Returned 0 ∧
    barrier_heap (mem s') !! a = None ∧
    threads s' !! t1 = Some th1' ∧ pc th1' = W_lock ∧ b th1' = Ptr a ∧
    ∀ e, thread_step e t1 th1' (mem s') = Fault.
Proof.
  intros Hne Ht1 Hbc1 Ht2 Hbc2 Hp Ha Hm. destruct s as [T m]. simpl in *.
  assert (∃ th1', run env_ok 3 t1 (enter (Call_wait (Some p)) th1) m = Done (th1', m) ∧
                  pc th1' = W_lock ∧ b th1' = Ptr a) as (th1' & Hrun1 & Hpc1 & Hb1).
  { unfold enter. do 3 step_one ltac:(rewrite ?Hp, ?Ha, ?Hm).
    eexists. split; [reflexivity|]. split; reflexivity. }
  assert (∃ th2',
            run env_ok 9 t2 (enter (Call_destroy (Some p)) th2) m =
              Done (th2', set_barrier_heap (delete a) (set_barrier_vars (insert p Null) m)) ∧
            pc th2' = Returned 0) as (th2' & Hrun2 & Hpc2).
  { unfold enter. do 5 step_one ltac:(rewrite ?Hp, ?Ha, ?Hm).
    destruct (semBarrierBreeched o) as [sm|] eqn:Hs;
      do 4 step_one ltac:(rewrite ?Hp, ?Ha, ?Hm, ?Hs);
      (eexists; split;
       [unfold run, ret, set_barrier_heap, set_barrier_vars; simpl;
        rewrite ?delete_insert_eq; reflexivity
       |reflexivity]). }
  exists {| threads :=
              <[t2 := th2']>
                (<[t2 := enter (Call_destroy (Some p)) th2]>
                   (<[t1 := th1']> (<[t1 := enter (Call_wait (Some p)) th1]> T)));
            mem := set_barrier_heap (delete a) (set_barrier_vars (insert p Null) m) |},
    th1', th2'.
  split; [|repeat split].
  - eapply rtc_l.
    { eapply (step_enter _ t1 _ (Call_wait (Some p))); [exact Ht1|exact Hbc1]. }
    eapply rtc_trans.
    { eapply (run_steps env_ok 3 t1); [apply lookup_insert_eq|exact Hrun1]. }
    eapply rtc_l.
    { eapply (step_enter _ t2 _ (Call_destroy (Some p))); [|exact Hbc2].
      simpl. rewrite !lookup_insert_ne by exact Hne. exact Ht2. }
    eapply (run_steps env_ok 9 t2); [apply lookup_insert_eq|exact Hrun2].
  - simpl. apply lookup_insert_eq.
  - exact Hpc2.
  - simpl. apply lookup_delete_eq.
  - simpl. rewrite !lookup_insert_ne by (intros Heq; apply Hne; symmetry; exact Heq).
    apply lookup_insert_eq.
  - exact Hpc1.
  - exact Hb1.
  - intros e. unfold thread_step, wait_step. rewrite Hpc1. simpl.
    unfold block_of. rewrite Hb1. unfold_prims. unfold_M. simpl.
    rewrite lookup_delete_eq. reflexivity.
Qed.

Lemma destroy_races_wait_witness :
  ∃ s' th1',
    rtc step (sample_system (Ptr 2%positive) (sample_block 2 2 MtxUnlocked)) s' ∧
    barrier_heap (mem s') !! 2%positive = None ∧
    threads s' !! 0%nat = Some th1' ∧ pc th1' = W_lock ∧
    thread_step env_ok 0%nat th1' (mem s') = Fault.
Proof.
  destruct (destroy_races_wait 0%nat 1%nat
              (sample_thread PTHREAD_CANCEL_ENABLE PTHREAD_CANCEL_DEFERRED)
              (sample_thread PTHREAD_CANCEL_ENABLE PTHREAD_CANCEL_ASYNCHRONOUS)
              1%positive 2%positive (sample_block 2 2 MtxUnlocked)
              (sample_system (Ptr 2%positive) (sample_block 2 2 MtxUnlocked))
              ltac:(discriminate) eq_refl eq_refl eq_refl eq_refl eq_refl eq_refl eq_refl)
    as (s' & th1' & th2' & Hsteps & _ & _ & Hfree & Ht1 & Hpc1 & _ & Hfault).
  exists s', th1'. repeat split; [exact Hsteps|exact Hfree|exact Ht1|exact Hpc1|apply Hfault].
Defined.

(** *** What a turn leaves of a block *)

Lemma block_kept_refl a m : block_kept a m m.
Proof. split; [lia|]. intros o' H. exists o'. auto. Qed.

Lemma block_kept_same_heap a m m' :
  barrier_heap m' = barrier_heap m → (next_block m ≤ next_block m')%positive →
  block_kept a m m'.
Proof. intros Hh Hn. split; [exact Hn|]. intros o' H. rewrite Hh in H. exists o'. auto. Qed.

Lemma pthread_barrier_init_block_kept e barrier attr count m r m' a :
  blocks_allocated m → (a < next_block m)%positive →
  pthread_barrier_init e barrier attr count m = Done (r, m') →
  block_kept a m m'.
Proof.
  intros Hall Ha H.
  destruct (pthread_barrier_init_heap _ _ _ _ _ _ _ Hall H) as [Hn [Hh|[Hs [psh Hh]]]].
  - apply block_kept_same_heap; assumption.
  - split; [exact Hn|]. intros o' Ho'. rewrite Hh in Ho'.
    rewrite lookup_insert_ne in Ho' by lia. exists o'. auto.
Qed.

Lemma ptw32_barrier_check_need_init_block_kept e t p m r m' a :
  blocks_allocated m → (a < next_block m)%positive →
  ptw32_barrier_check_need_init e t p m = Done (r, m') →
  block_kept a m m'.
Proof.
  intros Hall Ha H. unfold ptw32_barrier_check_need_init in H.
  unfold EnterCriticalSection, LeaveCriticalSection, load_barrier_var in H.
  unfold_M. repeat (case_match; simplify_eq);
    try (apply block_kept_same_heap; simpl; [reflexivity|lia]).
  match goal with
  | Hi : pthread_barrier_init _ _ _ _ _ = _ |- _ =>
      apply (pthread_barrier_init_block_kept _ _ _ _ _ _ _ a) in Hi;
        [|exact Hall|exact Ha];
      destruct Hi as [Hn Hb]; split; [exact Hn|exact Hb]
  end.
Qed.

Ltac solve_kept :=
  first
    [ apply block_kept_same_heap; simpl; [reflexivity|lia]
    | split; [simpl; lia|];
      let o' := fresh "o'" in let Ho' := fresh "Ho'" in
      simpl; intros o' Ho';
      first
        [ apply lookup_insert_Some in Ho' as [[? <-]|[? Ho']]
        | apply lookup_delete_Some in Ho' as [? Ho'] ];
      try congruence;
      eexists; (split; [eassumption|]); simpl; split; reflexivity ].

(** A turn of another thread leaves the mutex and the semaphore of a
    block that [t] owns and whose semaphore has no count, and does not
    bring that thread on its way to the semaphore. *)
Lemma other_thread_step e t t' th m th' m' a :
  t' ≠ t →
  blocks_allocated m →
  (a < next_block m)%positive →
  (∀ o, barrier_heap m !! a = Some o →
        mtxExclusiveAccess o = MtxLocked t ∧
        ∃ sm, semBarrierBreeched o = Some sm ∧ sem_value sm ≤ 0) →
  (b th = Ptr a → heads_for_semaphore (pc th) = false) →
  thread_step e t' th m = Done (th', m') →
  block_kept a m m' ∧ (b th' = Ptr a → heads_for_semaphore (pc th') = false).
Proof.
  intros Hne Hall Ha Hown Hb H.
  destruct th as [l st ty stack bar res b0 lty old]. simpl in Hb.
  unfold thread_step, wait_step, destroy_step in H.
  destruct l; simpl in H; try congruence; try discriminate.
  2: { (* W_auto_init *)
    unfold load_handle, load_barrier_var in H. unfold_M. simpl in H.
    repeat (case_match; simplify_eq); simpl;
      (split; [|try reflexivity; try (intros; reflexivity)]);
      try (apply block_kept_same_heap; simpl; [reflexivity|lia]);
      eapply ptw32_barrier_check_need_init_block_kept; eauto. }
  all: unfold_prims; crunch.
  all: try (split; [apply block_kept_same_heap; simpl; [reflexivity|lia]
                   |first [reflexivity|intros; reflexivity|assumption]]).
  all: match goal with
       | H0 : barrier_heap ?m !! ?p = Some ?o |- _ =>
           destruct (decide (p = a)) as [->|Hpa];
           [ destruct (Hown _ H0) as (Hm & sm & Hs & Hv); simplify_eq;
             try congruence; try lia;
             try (specialize (Hb eq_refl); discriminate)
           | ];
           (split; [solve_kept|intros; first [reflexivity|congruence]])
       end.
Qed.

Lemma block_kept_trans a m1 m2 m3 :
  block_kept a m1 m2 → block_kept a m2 m3 → block_kept a m1 m3.
Proof.
  intros [Hn1 H1] [Hn2 H2]. split; [lia|]. intros o3 Ho3.
  destruct (H2 o3 Ho3) as (o2 & Ho2 & Hm2 & Hs2).
  destruct (H1 o2 Ho2) as (o1 & Ho1 & Hm1 & Hs1).
  exists o1. repeat split; congruence.
Qed.

Lemma block_kept_owner t a m m' :
  block_kept a m m' →
  (∀ o, barrier_heap m !! a = Some o →
        mtxExclusiveAccess o = MtxLocked t ∧
        ∃ sm, semBarrierBreeched o = Some sm ∧ sem_value sm ≤ 0) →
  ∀ o, barrier_heap m' !! a = Some o →
       mtxExclusiveAccess o = MtxLocked t ∧
       ∃ sm, semBarrierBreeched o = Some sm ∧ sem_value sm ≤ 0.
Proof.
  intros [_ Hk] Hown o' Ho'. destruct (Hk o' Ho') as (o & Ho & Hm & Hs).
  destruct (Hown o Ho) as (Hm0 & sm & Hs0 & Hv).
  split; [congruence|]. exists sm. split; [congruence|exact Hv].
Qed.

Lemma pthread_mutex_unlock_block_kept t t' a a0 m r m' :
  t' ≠ t →
  (∀ o, barrier_heap m !! a = Some o → mtxExclusiveAccess o = MtxLocked t) →
  pthread_mutex_unlock t' a0 m = Done (r, m') → block_kept a m m'.
Proof.
  intros Hne Hown H. unfold pthread_mutex_unlock in H. unfold_prims. crunch.
  all: try (apply block_kept_same_heap; simpl; [reflexivity|lia]).
  destruct (decide (a0 = a)) as [->|Hpa].
  - match goal with
    | H0 : barrier_heap _ !! a = Some _ |- _ => specialize (Hown _ H0); congruence
    end.
  - solve_kept.
Qed.

Lemma run_cleanup_block_kept t t' a handlers m m' :
  t' ≠ t →
  (∀ o, barrier_heap m !! a = Some o → mtxExclusiveAccess o = MtxLocked t) →
  run_cleanup t' handlers m = Done (tt, m') → block_kept a m m'.
Proof.
  intros Hne. revert m. induction handlers as [|a0 rest IH]; intros m Hown H; simpl in H.
  - unfold ret in H. simplify_eq. apply block_kept_refl.
  - unfold bind in H.
    destruct (pthread_mutex_unlock t' a0 m) as [[r m1]| |] eqn:Hu; try discriminate.
    pose proof (pthread_mutex_unlock_block_kept _ _ _ _ _ _ _ Hne Hown Hu) as Hk1.
    eapply block_kept_trans; [exact Hk1|]. apply IH; [|exact H].
    intros o1 Ho1. destruct Hk1 as [_ Hk1].
    destruct (Hk1 o1 Ho1) as (o & Ho & Hm & _). rewrite Hm. apply (Hown o Ho).
Qed.

(** One turn of the system from a state in which [t] is held in
    [sem_wait]: [t] is still held, and has not moved, unless the turn is
    the failure of its [sem_wait]. *)
Lemma held_in_sem_wait_step t a s s' :
  blocks_allocated (mem s) →
  held_in_sem_wait t a s →
  step s s' →
  (held_in_sem_wait t a s' ∧ threads s' !! t = threads s !! t) ∨
  sem_wait_fails t s s'.
Proof.
  intros Hall (Ha & (th & Ht & Hpc & Hb & Hst) & Hown & Hothers) Hstep.
  destruct s as [T m]. simpl in *.
  assert (∀ m', block_kept a m m' →
            ∀ T', T' !! t = Some th →
              (∀ t' th', T' !! t' = Some th' → b th' = Ptr a →
                         heads_for_semaphore (pc th') = false) →
              held_in_sem_wait t a {| threads := T'; mem := m' |}) as Hkeep.
  { intros m' Hk T' Ht' Ho'. split; [destruct Hk as [Hn _]; simpl; lia|].
    split; [exists th; auto|]. split; [|exact Ho'].
    simpl. eapply block_kept_owner; eauto. }
  destruct Hstep as [t0 th0 c Ht0 Hbc | e t0 th0 th0' m' Ht0 H
                    | e t0 th0 bar attr count r m' Ht0 Hbc H
                    | t0 th0 m' Ht0 Hpc0 Hst0 H];
    simpl in *.
  - left. destruct (decide (t0 = t)) as [->|Hne].
    { rewrite Ht in Ht0. simplify_eq. rewrite Hpc in Hbc. discriminate. }
    rewrite lookup_insert_ne by exact Hne. split; [|reflexivity].
    apply Hkeep; [apply block_kept_refl|rewrite lookup_insert_ne by exact Hne; exact Ht|].
    intros t' th' Ht' Hb'.
    apply lookup_insert_Some in Ht' as [[_ <-]|[_ Ht']]; [|eauto].
    destruct c; reflexivity.
  - destruct (decide (t0 = t)) as [->|Hne].
    + right. rewrite Ht in Ht0. simplify_eq.
      destruct th0 as [l st ty stack bar res b0 lty old]. simpl in *. subst l b0.
      unfold thread_step, wait_step in H. simpl in H.
      unfold block_of, sem_wait in H. unfold_prims. unfold_M. simpl in H.
      destruct (barrier_heap m !! a) as [o|] eqn:Ho; simpl in H; [|discriminate].
      destruct (Hown o eq_refl) as (Hm & sm & Hs & Hv).
      destruct (sem_wait_errno e) as [err|] eqn:He;
        repeat (rewrite ?Ho in H; simpl in H).
      * simplify_eq. exists e. eexists. exists err.
        split; [exact Ht|]. split; [reflexivity|]. split; [exact He|]. reflexivity.
      * rewrite Hs in H. destruct (decide (0 < sem_value sm)); [lia|discriminate].
    + left. rewrite lookup_insert_ne by exact Hne. split; [|reflexivity].
      destruct (other_thread_step e t t0 th0 m th0' m' a Hne Hall Ha Hown
                  (Hothers t0 th0 Ht0) H) as [Hk Hh].
      apply Hkeep; [exact Hk|rewrite lookup_insert_ne by exact Hne; exact Ht|].
      intros t' th' Ht' Hb'.
      apply lookup_insert_Some in Ht' as [[_ <-]|[_ Ht']]; eauto.
  - left. split; [|reflexivity]. apply Hkeep; [|exact Ht|exact Hothers].
    eapply pthread_barrier_init_block_kept; eauto.
  - destruct (decide (t0 = t)) as [->|Hne].
    { rewrite Ht in Ht0. simplify_eq. congruence. }
    left. rewrite lookup_insert_ne by exact Hne. split; [|reflexivity].
    apply Hkeep; [|rewrite lookup_insert_ne by exact Hne; exact Ht|].
    + eapply run_cleanup_block_kept; [exact Hne| |exact H].
      intros o Ho. apply (Hown o Ho).
    + intros t' th' Ht' Hb'.
      apply lookup_insert_Some in Ht' as [[_ <-]|[_ Ht']]; eauto.
Qed.

Lemma sample_system_no_thread_heads h o a :
  ∀ t' th', threads (sample_system h o) !! t' = Some th' → b th' = Ptr a →
            heads_for_semaphore (pc th') = false.
Proof.
  intros t' th' H Hb. unfold sample_system in H. simpl in H.
  apply lookup_insert_Some in H as [[_ <-]|[_ H]]; [discriminate Hb|].
  apply lookup_singleton_Some in H as [_ <-]. discriminate Hb.
Qed.

Lemma sample_in_sem_wait_steps :
  rtc step (sample_system (Ptr 2%positive) (sample_block 2 2 MtxUnlocked))
    sample_in_sem_wait.
Proof.
  eapply rtc_l.
  { apply (step_enter _ 0%nat
             (sample_thread PTHREAD_CANCEL_ENABLE PTHREAD_CANCEL_DEFERRED)
             (Call_wait (Some 1%positive))); reflexivity. }
  eapply rtc_trans.
  { eapply (run_steps env_ok 7 0%nat); [reflexivity|]. vm_compute. reflexivity. }
  apply rtc_refl.
Qed.

Lemma sample_in_sem_wait_reachable : reachable sample_in_sem_wait.
Proof.
  exists (sample_system (Ptr 2%positive) (sample_block 2 2 MtxUnlocked)).
  split; [apply sample_system_initial|apply sample_in_sem_wait_steps].
Qed.

Lemma sample_in_sem_wait_held : held_in_sem_wait 0%nat 2%positive sample_in_sem_wait.
Proof.
  split; [reflexivity|]. split; [|split].
  - eexists. split; [reflexivity|]. repeat split.
  - intros o H. simpl in H. apply lookup_singleton_Some in H as [_ <-]. simpl.
    split; [reflexivity|]. eexists. split; [reflexivity|]. simpl. lia.
  - intros t' th' H Hb. unfold sample_in_sem_wait in H. simpl in H.
    apply lookup_insert_Some in H as [[_ <-]|[_ H]]; [reflexivity|].
    apply lookup_singleton_Some in H as [_ <-]. discriminate Hb.
Qed.

(** X23.  A thread with deferred cancellation type that arrives, not as the
    last, at a barrier whose mutex is free and whose semaphore has no
    count, while no other thread is between lines 231 and 235 or between
    lines 163 and 165 on that block, reaches [sem_wait] still owning the
    mutex it took at line 228, with cancellation disabled. *)
Theorem pthread_barrier_wait_holds_mutex t th p a o sm s :
  threads s !! t = Some th →
  between_calls (pc th) = true →
  thr_canceltype th = PTHREAD_CANCEL_DEFERRED →
  barrier_vars (mem s) !! p = Some (Ptr a) →
  barrier_heap (mem s) !! a = Some o →
  (a < next_block (mem s))%positive →
  mtxExclusiveAccess o = MtxUnlocked →
  semBarrierBreeched o = Some sm →
  sem_value sm ≤ 0 →
  wrap_int (nCurrentBarrierHeight o - 1) ≠ 0 →
  (∀ t' th', threads s !! t' = Some th' → b th' = Ptr a →
             heads_for_semaphore (pc th') = false) →
  ∃ s', rtc step s s' ∧ held_in_sem_wait t a s' ∧
        barrier_heap (mem s') !! a =
          Some {| nCurrentBarrierHeight := wrap_int (nCurrentBarrierHeight o - 1);
                  nInitialBarrierHeight := nInitialBarrierHeight o;
                  mtxExclusiveAccess := MtxLocked t;
                  semBarrierBreeched := Some sm |}.
Proof.
  intros Ht Hbc Hty Hp Ha Hlt Hm Hs Hv Hnz Hothers.
  destruct s as [T m]. simpl in *.
  destruct th as [l st ty stack bar res b0 lty old]. simpl in Hbc, Hty. subst ty.
  assert (∃ th7,
    run env_ok 7 t
      (enter (Call_wait (Some p))
         {| pc := l; thr_cancelstate := st; thr_canceltype := PTHREAD_CANCEL_DEFERRED;
            cleanup_stack := stack; barrier := bar; result := res; b := b0;
            cancelType := lty; oldCancelState := old |}) m =
      Done (th7,
            set_barrier_heap
              (insert a {| nCurrentBarrierHeight := wrap_int (nCurrentBarrierHeight o - 1);
                           nInitialBarrierHeight := nInitialBarrierHeight o;
                           mtxExclusiveAccess := MtxLocked t;
                           semBarrierBreeched := Some sm |}) m) ∧
    pc th7 = W_sem_wait ∧ b th7 = Ptr a ∧
    thr_cancelstate th7 = PTHREAD_CANCEL_DISABLED) as (th7 & Hrun & Hpc7 & Hb7 & Hst7).
  { unfold enter.
    do 4 step_one ltac:(rewrite ?Hp, ?Ha, ?Hm).
    step_one ltac:(rewrite ?Ha, ?Hm,
                     ?(decide_False (P := 0 = wrap_int (nCurrentBarrierHeight o - 1)))
                     by congruence).
    do 2 step_one ltac:(rewrite ?Ha, ?Hm).
    eexists. split.
    - unfold run, ret. rewrite !set_barrier_heap_twice.
      unfold set_barrier_heap, compose. rewrite !insert_insert_eq. simpl.
      rewrite <- Hs. reflexivity.
    - repeat apply conj; reflexivity. }
  eexists. split; [|split].
  - eapply rtc_l.
    { eapply (step_enter _ t _ (Call_wait (Some p))); [exact Ht|exact Hbc]. }
    eapply (run_steps env_ok 7 t); [apply lookup_insert_eq|exact Hrun].
  - split; [exact Hlt|]. split; [|split].
    + exists th7. simpl. rewrite lookup_insert_eq. auto.
    + simpl. intros o' Ho'. rewrite lookup_insert_eq in Ho'. simplify_eq. simpl.
      split; [reflexivity|]. exists sm. auto.
    + simpl. intros t' th' Ht' Hb'.
      apply lookup_insert_Some in Ht' as [[_ <-]|[Hne Ht']]; [rewrite Hpc7; reflexivity|].
      rewrite lookup_insert_ne in Ht' by exact Hne. eauto.
  - simpl. apply lookup_insert_eq.
Qed.

Lemma pthread_barrier_wait_holds_mutex_witness :
  ∃ s',
    rtc step (sample_system (Ptr 2%positive) (sample_block 2 2 MtxUnlocked)) s' ∧
    held_in_sem_wait 0%nat 2%positive s' ∧
    barrier_heap (mem s') !! 2%positive = Some (sample_block 1 2 (MtxLocked 0%nat)).
Proof.
  exact (pthread_barrier_wait_holds_mutex 0%nat
           (sample_thread PTHREAD_CANCEL_ENABLE PTHREAD_CANCEL_DEFERRED)
           1%positive 2%positive (sample_block 2 2 MtxUnlocked)
           {| sem_pshared := PTHREAD_PROCESS_PRIVATE; sem_value := 0 |}
           (sample_system (Ptr 2%positive) (sample_block 2 2 MtxUnlocked))
           eq_refl eq_refl eq_refl eq_refl eq_refl eq_refl eq_refl eq_refl
           (Z.le_refl 0) ltac:(vm_compute; discriminate)
           (sample_system_no_thread_heads _ _ _)).
Defined.

(** X24.  A thread held in [sem_wait] in this way stays there: whatever the
    other threads do from a reachable state (calls of
    [pthread_barrier_init], [pthread_barrier_wait] and
    [pthread_barrier_destroy], statement by statement, and
    cancellations), as long as its own [sem_wait] does not fail, the
    thread has not moved, it still owns the mutex, the semaphore still
    has no count, and no other thread is between lines 231 and 235 or
    between lines 163 and 165 on that block. *)
Theorem sem_wait_never_released t a s s' :
  reachable s →
  held_in_sem_wait t a s →
  rtc (λ s1 s2, step s1 s2 ∧ ¬ sem_wait_fails t s1 s2) s s' →
  held_in_sem_wait t a s' ∧ threads s' !! t = threads s !! t.
Proof.
  intros Hreach Hheld Hsteps. apply reachable_invariant in Hreach.
  induction Hsteps as [s|s1 s2 s3 [Hstep Hnf] _ IH]; [auto|].
  destruct (held_in_sem_wait_step t a s1 s2 ltac:(apply Hreach) Hheld Hstep)
    as [[Hheld2 Heq]|Hf]; [|contradiction].
  rewrite <- Heq. apply IH; [|exact Hheld2].
  eapply step_preserves; eauto.
Qed.

Lemma sem_wait_never_released_witness :
  held_in_sem_wait 0%nat 2%positive
    {| threads :=
         <[1%nat := enter (Call_wait (Some 1%positive))
                      (sample_thread PTHREAD_CANCEL_ENABLE PTHREAD_CANCEL_ASYNCHRONOUS)]>
           (threads sample_in_sem_wait);
       mem := mem sample_in_sem_wait |} ∧
  threads
    {| threads :=
         <[1%nat := enter (Call_wait (Some 1%positive))
                      (sample_thread PTHREAD_CANCEL_ENABLE PTHREAD_CANCEL_ASYNCHRONOUS)]>
           (threads sample_in_sem_wait);
       mem := mem sample_in_sem_wait |} !! 0%nat =
    threads sample_in_sem_wait !! 0%nat.
Proof.
  apply (sem_wait_never_released 0%nat 2%positive sample_in_sem_wait);
    [exact sample_in_sem_wait_reachable|exact sample_in_sem_wait_held|].
  apply rtc_once. split.
  - apply (step_enter _ 1%nat
             (sample_thread PTHREAD_CANCEL_ENABLE PTHREAD_CANCEL_ASYNCHRONOUS)
             (Call_wait (Some 1%positive))); reflexivity.
  - intros (e & th & err & _ & _ & _ & Heq).
    apply (f_equal (λ s, pc <$> threads s !! 1%nat)) in Heq.
    vm_compute in Heq. discriminate Heq.
Defined.

(** *** Handles and initial heights *)

Lemma handles_kept_refl m : handles_kept m m.
Proof. intros p. left. reflexivity. Qed.

Lemma handles_kept_same m m' : barrier_vars m' = barrier_vars m → handles_kept m m'.
Proof. intros H p. left. rewrite H. reflexivity. Qed.

Lemma handles_kept_trans m1 m2 m3 :
  handles_kept m1 m2 → handles_kept m2 m3 → handles_kept m1 m3.
Proof.
  intros H1 H2 p. destruct (H2 p) as [E2|[E2 I2]]; destruct (H1 p) as [E1|[E1 I1]].
  - left. congruence.
  - right. split; [congruence|exact I1].
  - right. split; [exact E2|]. rewrite <- E1. exact I2.
  - right. split; [exact E2|exact I1].
Qed.

Lemma handles_kept_invalidate p v m :
  barrier_vars m !! p = Some v →
  handles_kept m (set_barrier_vars (insert p Null) m).
Proof.
  intros Hp q. simpl. destruct (decide (p = q)) as [<-|Hne].
  - right. rewrite lookup_insert_eq. split; [reflexivity|eauto].
  - left. apply lookup_insert_ne, Hne.
Qed.

Lemma pthread_barrier_init_vars e barrier attr count m r m' :
  pthread_barrier_init e barrier attr count m = Done (r, m') →
  barrier_vars m' = barrier_vars m.
Proof.
  unfold pthread_barrier_init. unfold_prims. intros H. crunch; reflexivity.
Qed.

Lemma ptw32_barrier_check_need_init_vars e t p m r m' :
  ptw32_barrier_check_need_init e t p m = Done (r, m') →
  barrier_vars m' = barrier_vars m.
Proof.
  intros H. unfold ptw32_barrier_check_need_init in H.
  unfold EnterCriticalSection, LeaveCriticalSection, load_barrier_var in H.
  unfold_M. repeat (case_match; simplify_eq); try reflexivity.
  match goal with
  | Hi : pthread_barrier_init _ _ _ _ _ = _ |- _ =>
      apply pthread_barrier_init_vars in Hi; simpl in *; exact Hi
  end.
Qed.

Lemma run_cleanup_vars t handlers m m' :
  run_cleanup t handlers m = Done (tt, m') → barrier_vars m' = barrier_vars m.
Proof.
  revert m. induction handlers as [|a rest IH]; intros m H; simpl in H.
  - unfold ret in H. simplify_eq. reflexivity.
  - unfold bind in H.
    destruct (pthread_mutex_unlock t a m) as [[r m1]| |] eqn:Hu; try discriminate.
    rewrite (IH _ H). unfold pthread_mutex_unlock in Hu. unfold_prims. crunch; reflexivity.
Qed.

Lemma thread_step_handles_kept e t th m th' m' :
  thread_step e t th m = Done (th', m') → handles_kept m m'.
Proof.
  intros H. destruct th as [l st ty stack bar res b0 lty old].
  unfold thread_step, wait_step, destroy_step in H.
  destruct l; simpl in H; try congruence; try discriminate.
  2: { unfold load_handle, load_barrier_var in H. unfold_M. simpl in H.
       repeat (case_match; simplify_eq); try apply handles_kept_refl;
         apply handles_kept_same; eapply ptw32_barrier_check_need_init_vars; eauto. }
  all: unfold_prims; crunch.
  all: first [ apply handles_kept_same; reflexivity
             | eapply handles_kept_invalidate; eauto
             | match goal with
               | H : barrier_vars ?m !! ?p = Some _ |- _ =>
                   exact (handles_kept_invalidate p _ m H)
               end ].
Qed.

Lemma step_handles_kept s s' : step s s' → handles_kept (mem s) (mem s').
Proof.
  intros Hstep.
  destruct Hstep as [t th c Ht Hbc | e t th th' m' Ht H
                    | e t th bar attr count r m' Ht Hbc H | t th m' Ht Hpc Hst H];
    simpl.
  - apply handles_kept_refl.
  - eapply thread_step_handles_kept; eauto.
  - apply handles_kept_same. eapply pthread_barrier_init_vars; eauto.
  - apply handles_kept_same. eapply run_cleanup_vars; eauto.
Qed.

(** X25.  No turn of any thread stores anything but NULL in a barrier
    variable: over any execution, a barrier variable holds what it held
    at the start, or NULL.  In particular no call ever makes a variable
    point to a block. *)
Theorem handles_never_validated s s' p :
  rtc step s s' →
  barrier_vars (mem s') !! p = barrier_vars (mem s) !! p ∨
  (barrier_vars (mem s') !! p = Some Null ∧ is_Some (barrier_vars (mem s) !! p)).
Proof.
  intros Hsteps. revert p. change (handles_kept (mem s) (mem s')).
  induction Hsteps as [s|s1 s2 s3 Hstep _ IH]; [apply handles_kept_refl|].
  eapply handles_kept_trans; [|exact IH]. apply step_handles_kept, Hstep.
Qed.

Lemma handles_never_validated_witness :
  ∃ s',
    rtc step (sample_system (Ptr 2%positive) (sample_block 2 2 MtxUnlocked)) s' ∧
    barrier_vars (mem s') !! 1%positive = Some Null ∧
    (barrier_vars (mem s') !! 1%positive =
       barrier_vars (mem (sample_system (Ptr 2%positive)
                            (sample_block 2 2 MtxUnlocked))) !! 1%positive ∨
     (barrier_vars (mem s') !! 1%positive = Some Null ∧
      is_Some (barrier_vars (mem (sample_system (Ptr 2%positive)
                                    (sample_block 2 2 MtxUnlocked))) !! 1%positive))).
Proof.
  assert (∃ s',
    rtc step (sample_system (Ptr 2%positive) (sample_block 2 2 MtxUnlocked)) s' ∧
    barrier_vars (mem s') !! 1%positive = Some Null) as (s' & Hsteps & Hnull).
  { eexists. split.
    - eapply rtc_l.
      { apply (step_enter _ 0%nat
                 (sample_thread PTHREAD_CANCEL_ENABLE PTHREAD_CANCEL_DEFERRED)
                 (Call_destroy (Some 1%positive))); reflexivity. }
      eapply (run_steps env_ok 9 0%nat); [reflexivity|]. vm_compute. reflexivity.
    - reflexivity. }
  exists s'. split; [exact Hsteps|]. split; [exact Hnull|].
  apply (handles_never_validated _ _ 1%positive Hsteps).
Defined.

Lemma heights_kept_refl m : blocks_allocated m → heights_kept m m.
Proof.
  intros Hall. split; [lia|]. intros a o' H. rewrite H. reflexivity.
Qed.

Lemma heights_kept_same_heap m m' :
  barrier_heap m' = barrier_heap m → (next_block m ≤ next_block m')%positive →
  heights_kept m m'.
Proof. intros Hh Hn. split; [exact Hn|]. intros a o' H. rewrite Hh in H. rewrite H. reflexivity. Qed.

Lemma heights_kept_insert m a o o' :
  barrier_heap m !! a = Some o →
  nInitialBarrierHeight o' = nInitialBarrierHeight o →
  heights_kept m (set_barrier_heap (insert a o') m).
Proof.
  intros Ha Hi. split; [reflexivity|]. simpl.
  intros a0 o0 H. apply lookup_insert_Some in H as [[<- <-]|[Hne H]].
  - rewrite Ha. exact Hi.
  - rewrite H. reflexivity.
Qed.

Lemma heights_kept_trans m1 m2 m3 :
  blocks_allocated m1 →
  heights_kept m1 m2 → heights_kept m2 m3 → heights_kept m1 m3.
Proof.
  intros Hall [Hn1 H1] [Hn2 H2]. split; [lia|]. intros a o3 Ho3.
  specialize (H2 a o3 Ho3).
  destruct (barrier_heap m2 !! a) as [o2|] eqn:Ho2.
  - specialize (H1 a o2 Ho2).
    destruct (barrier_heap m1 !! a) as [o1|]; [congruence|exact H1].
  - destruct (barrier_heap m1 !! a) as [o1|] eqn:Ho1; [|lia].
    specialize (Hall a o1 Ho1). lia.
Qed.

Lemma benign_heights_kept t m m' : benign t m m' → heights_kept m m'.
Proof.
  intros [Hn Hb]. split; [exact Hn|]. intros a o' Ho'. specialize (Hb a o' Ho').
  destruct (barrier_heap m !! a) as [o|]; [apply Hb|apply Hb].
Qed.

Lemma thread_step_heights_kept e t th m th' m' :
  blocks_allocated m →
  thread_step e t th m = Done (th', m') → heights_kept m m'.
Proof.
  intros Hall H.
  destruct (decide (pc th = W_lock ∨ pc th = W_decrement ∨ pc th = W_reset ∨
                    pc th = D_trylock)) as [Hpc|Hpc].
  - destruct th as [l st ty stack bar res b0 lty old]. simpl in Hpc.
    unfold thread_step, wait_step, destroy_step in H.
    destruct Hpc as [ -> | [ -> | [ -> | -> ] ] ]; simpl in H; unfold_prims; crunch;
      first [ apply heights_kept_same_heap; simpl; [reflexivity|lia]
            | eapply heights_kept_insert; eauto ].
  - eapply benign_heights_kept.
    eapply (thread_step_benign e t th m th' m' Hall H); intros Heq; apply Hpc; auto.
Qed.

Lemma step_heights_kept s s' :
  blocks_allocated (mem s) → step s s' → heights_kept (mem s) (mem s').
Proof.
  intros Hall Hstep.
  destruct Hstep as [t th c Ht Hbc | e t th th' m' Ht H
                    | e t th bar attr count r m' Ht Hbc H | t th m' Ht Hpc Hst H];
    simpl.
  - apply heights_kept_refl, Hall.
  - eapply thread_step_heights_kept; eauto.
  - eapply (benign_heights_kept t), pthread_barrier_init_benign; eauto.
  - eapply (benign_heights_kept t), run_cleanup_benign; eauto.
Qed.

(** X26.  Over any execution from a reachable state, a block that is live at
    both ends has the same [nInitialBarrierHeight]: the field is written
    at line 113 and nowhere else. *)
Theorem initial_height_constant s s' a o o' :
  reachable s →
  rtc step s s' →
  barrier_heap (mem s) !! a = Some o →
  barrier_heap (mem s') !! a = Some o' →
  nInitialBarrierHeight o' = nInitialBarrierHeight o.
Proof.
  intros Hreach Hsteps Ha Ha'. apply reachable_invariant in Hreach.
  assert (heights_kept (mem s) (mem s')) as [_ Hk].
  { clear Ha Ha'. induction Hsteps as [s|s1 s2 s3 Hstep _ IH].
    - apply heights_kept_refl, Hreach.
    - eapply heights_kept_trans; [apply Hreach| |apply IH].
      + apply step_heights_kept; [apply Hreach|exact Hstep].
      + eapply step_preserves; eauto. }
  specialize (Hk a o' Ha'). rewrite Ha in Hk. exact Hk.
Qed.

Lemma initial_height_constant_witness :
  nInitialBarrierHeight (sample_block 1 2 (MtxLocked 0%nat)) =
  nInitialBarrierHeight (sample_block 2 2 MtxUnlocked).
Proof.
  apply (initial_height_constant
           (sample_system (Ptr 2%positive) (sample_block 2 2 MtxUnlocked))
           sample_in_sem_wait 2%positive).
  - exists (sample_system (Ptr 2%positive) (sample_block 2 2 MtxUnlocked)).
    split; [apply sample_system_initial|apply rtc_refl].
  - exact sample_in_sem_wait_steps.
  - reflexivity.
  - reflexivity.
Defined.

(** *** The owner of the mutex *)

Lemma benign_keeps_lock t t2 a2 m m' :
  benign t m m' → t2 ≠ t →
  (a2 < next_block m)%positive →
  (∀ o, barrier_heap m !! a2 = Some o → mtxExclusiveAccess o = MtxLocked t2) →
  (a2 < next_block m')%positive ∧
  ∀ o', barrier_heap m' !! a2 = Some o' → mtxExclusiveAccess o' = MtxLocked t2.
Proof.
  intros [Hn Hb] Hne Ha Hown. split; [lia|]. intros o' Ho'.
  specialize (Hb a2 o' Ho'). destruct (barrier_heap m !! a2) as [o|].
  - destruct Hb as (_ & _ & _ & Hkeep). apply Hkeep; [exact Hne|]. apply Hown. reflexivity.
  - destruct Hb as [Hfresh _]. lia.
Qed.

Lemma thread_step_keeps_lock e t th m th' m' t2 a2 :
  t2 ≠ t →
  blocks_allocated m →
  (a2 < next_block m)%positive →
  (∀ o, barrier_heap m !! a2 = Some o → mtxExclusiveAccess o = MtxLocked t2) →
  thread_step e t th m = Done (th', m') →
  (a2 < next_block m')%positive ∧
  ∀ o', barrier_heap m' !! a2 = Some o' → mtxExclusiveAccess o' = MtxLocked t2.
Proof.
  intros Hne Hall Ha Hown H.
  destruct (decide (pc th = W_lock ∨ pc th = W_decrement ∨ pc th = W_reset ∨
                    pc th = D_trylock)) as [Hpc|Hpc].
  - destruct th as [l st ty stack bar res b0 lty old]. simpl in Hpc.
    unfold thread_step, wait_step, destroy_step in H.
    destruct Hpc as [ -> | [ -> | [ -> | -> ] ] ]; simpl in H; unfold_prims; crunch.
    all: (split; [simpl; lia|]); simpl; try exact Hown.
    all: intros o' Ho'; apply lookup_insert_Some in Ho' as [[-> <-]|[_ Ho']];
      [|apply Hown, Ho'].
    all: match goal with
         | H0 : barrier_heap _ !! _ = Some _ |- _ => specialize (Hown _ H0)
         end; simpl; congruence.
  - eapply benign_keeps_lock; eauto.
    eapply (thread_step_benign e t th m th' m' Hall H); intros Heq; apply Hpc; auto.
Qed.

Lemma thread_step_owner e t th m th' m' :
  blocks_allocated m →
  (owns_mutex (pc th) = true → ∀ a, b th = Ptr a →
     (a < next_block m)%positive ∧
     ∀ o, barrier_heap m !! a = Some o → mtxExclusiveAccess o = MtxLocked t) →
  thread_step e t th m = Done (th', m') →
  owns_mutex (pc th') = true → ∀ a, b th' = Ptr a →
    (a < next_block m')%positive ∧
    ∀ o', barrier_heap m' !! a = Some o' → mtxExclusiveAccess o' = MtxLocked t.
Proof.
  intros Hall Hown H.
  destruct th as [l st ty stack bar res b0 lty old]. simpl in Hown.
  unfold thread_step, wait_step, destroy_step in H.
  destruct l; simpl in H; try congruence; try discriminate.
  2: { unfold load_handle, load_barrier_var in H. unfold_M. simpl in H.
       repeat (case_match; simplify_eq); simpl; discriminate. }
  all: unfold_prims; crunch; try discriminate.
  all: intros _ a0 Hb0; simplify_eq.
  all: try (destruct (Hown eq_refl _ eq_refl) as [Hlt Hlock]).
  all: try match goal with
       | H0 : barrier_heap _ !! ?a = Some _ |- _ =>
           pose proof (Hall _ _ H0) as Hlt'; try specialize (Hlock _ H0)
       end.
  all: (split; [simpl; lia|]); simpl.
  all: try assumption.
  all: intros o' Ho'; rewrite ?lookup_insert_eq in Ho'; simplify_eq; simpl;
         try reflexivity; try assumption.
Qed.

Lemma step_owners_hold_lock s s' :
  blocks_allocated (mem s) → owners_hold_lock s → step s s' → owners_hold_lock s'.
Proof.
  intros Hall Hown Hstep. destruct s as [T m]. unfold owners_hold_lock in *.
  destruct Hstep as [t th c Ht Hbc | e t th th' m' Ht H
                    | e t th bar attr count r m' Ht Hbc H | t th m' Ht Hpc Hst H];
    simpl in *; intros t0 th0 a0 Ht0 Hreg Hb0.
  - apply lookup_insert_Some in Ht0 as [[_ <-]|[_ Ht0]]; [|eauto].
    destruct c; discriminate.
  - apply lookup_insert_Some in Ht0 as [[<- <-]|[Hne Ht0]].
    + eapply (thread_step_owner e t th m th' m' Hall); eauto.
    + destruct (Hown t0 th0 a0 Ht0 Hreg Hb0) as [Hlt Hlock].
      eapply (thread_step_keeps_lock e t th m th' m' t0 a0); eauto.
  - destruct (Hown t0 th0 a0 Ht0 Hreg Hb0) as [Hlt Hlock].
    eapply (benign_keeps_lock (S t0) t0 a0 m m'); eauto.
    eapply pthread_barrier_init_benign; eauto.
  - apply lookup_insert_Some in Ht0 as [[_ <-]|[Hne Ht0]]; [discriminate|].
    destruct (Hown t0 th0 a0 Ht0 Hreg Hb0) as [Hlt Hlock].
    eapply (benign_keeps_lock t t0 a0 m m'); eauto.
    eapply run_cleanup_benign; eauto.
Qed.

Lemma reachable_owners_hold_lock s : reachable s → owners_hold_lock s.
Proof.
  intros (s0 & Hinit & Hsteps).
  assert (owners_hold_lock s0) as Hown.
  { intros t th a Ht Hreg _. destruct Hinit as [Hidle _].
    rewrite (Hidle t th Ht) in Hreg. discriminate. }
  apply initial_invariant in Hinit.
  induction Hsteps as [s|s1 s2 s3 Hstep _ IH]; [exact Hown|].
  apply IH.
  - eapply step_preserves; eauto.
  - eapply step_owners_hold_lock; eauto. apply Hinit.
Qed.

(** X27.  Mutual exclusion.  In every reachable state, two threads that are
    both between taking the mutex of a live block (lines 228, 154) and
    releasing it (lines 234, 275, 166) are the same thread, and the mutex
    of the block is owned by it. *)
Theorem mutex_excludes s t1 t2 th1 th2 a o :
  reachable s →
  threads s !! t1 = Some th1 →
  threads s !! t2 = Some th2 →
  owns_mutex (pc th1) = true → b th1 = Ptr a →
  owns_mutex (pc th2) = true → b th2 = Ptr a →
  barrier_heap (mem s) !! a = Some o →
  t1 = t2 ∧ mtxExclusiveAccess o = MtxLocked t1.
Proof.
  intros Hreach Ht1 Ht2 Hr1 Hb1 Hr2 Hb2 Ha.
  pose proof (reachable_owners_hold_lock s Hreach) as Hown.
  destruct (Hown t1 th1 a Ht1 Hr1 Hb1) as [_ H1].
  destruct (Hown t2 th2 a Ht2 Hr2 Hb2) as [_ H2].
  specialize (H1 o Ha). specialize (H2 o Ha). split; [congruence|exact H1].
Qed.

Lemma mutex_excludes_witness :
  0%nat = 0%nat ∧
  mtxExclusiveAccess (sample_block 1 2 (MtxLocked 0%nat)) = MtxLocked 0%nat.
Proof.
  eapply (mutex_excludes sample_in_sem_wait 0%nat 0%nat _ _ 2%positive);
    [exact sample_in_sem_wait_reachable|reflexivity|reflexivity
    |reflexivity|reflexivity|reflexivity|reflexivity|reflexivity].
Defined.
